(** * A shallow embedding of [bot.py] (pain-literature-weekly)

    Python [str] values are modelled as [list ascii]: a string is the list of
    its code points, all below 256 (Latin-1).  The built-in [str] methods the
    program uses ([strip], [split], [lower], [" ".join]) are written out over
    that list with Python's definition of whitespace ([str.isspace] restricted
    to these code points).  Network responses are inputs of the model. *)

From Stdlib Require Import Ascii String ZArith Lia Sorted.
From stdpp Require Import base list gmap strings.

Abbreviation str := (list ascii).

(** String literals of the source, as lists of code points. *)
Definition L (s : string) : str := list_ascii_of_string s.

(** The double-quote character, which Rocq string literals cannot hold
    without doubling it. *)
Definition DQ : str := [ascii_of_nat 34].

(** Python's [str.isspace] on code points below 256: [\t \n \v \f \r],
    the separators [\x1c]-[\x1f], the space, [\x85] and [\xa0].  The same
    predicate is used by [str.split()], [str.strip()] and the regex [\s]. *)
Definition is_space (c : ascii) : bool :=
  let n := nat_of_ascii c in
  ((9 <=? n) && (n <=? 13)) || ((28 <=? n) && (n <=? 32))
  || (n =? 133) || (n =? 160).

(** Truthiness of a Python string. *)
Definition truthy (s : str) : bool :=
  match s with [] => false | _ => true end.

(** [sep.join(ws)]. *)
Fixpoint join (sep : str) (ws : list str) : str :=
  match ws with
  | [] => []
  | [w] => w
  | w :: ws' => w ++ sep ++ join sep ws'
  end.

Fixpoint drop_ws (s : str) : str :=
  match s with
  | c :: s' => if is_space c then drop_ws s' else s
  | [] => []
  end.

(** [s.strip()]. *)
Definition py_strip (s : str) : str := rev (drop_ws (rev (drop_ws s))).

(** ** Query construction: [pubmed_query] (bot.py lines 71-77) *)

Definition pubmed_query (journals keywords : list str) (humans : bool) : str :=
  let j := join (L " OR ") journals in
  let k := match keywords with [] => [] | _ => join (L " OR ") keywords end in
  let core := if truthy j then L "(" ++ j ++ L ")" else [] in
  let core := if truthy k then core ++ L " AND (" ++ k ++ L ")" else core in
  let core := if humans then core ++ L " AND (humans[MeSH Terms])" else core in
  py_strip core.

Example pubmed_query_ex1 :
  pubmed_query [L "Pain[ta]"; L "J Pain[ta]"] [L "Analgesia"; L "Injections"] false
  = L "(Pain[ta] OR J Pain[ta]) AND (Analgesia OR Injections)".
Proof. reflexivity. Qed.

Example pubmed_query_ex2 :
  pubmed_query [] [L "Analgesia"] false = L "AND (Analgesia)".
Proof. reflexivity. Qed.

(** ** Python string methods used by the extraction code *)

Definition starts_ns (s : str) : bool :=
  match s with c :: _ => negb (is_space c) | [] => false end.

(** [s.split()]: the maximal runs of non-whitespace characters. *)
Fixpoint py_split (s : str) : list str :=
  match s with
  | [] => []
  | c :: s' =>
      if is_space c then py_split s'
      else if starts_ns s' then
        match py_split s' with
        | w :: ws => (c :: w) :: ws
        | [] => [[c]]
        end
      else [c] :: py_split s'
  end.

(** [s.lower()] on code points below 256: [A-Z] and [\xc0-\xde] except the
    multiplication sign [\xd7] move up by 32. *)
Definition lower_char (c : ascii) : ascii :=
  let n := nat_of_ascii c in
  if ((65 <=? n) && (n <=? 90)) || ((192 <=? n) && (n <=? 222) && negb (n =? 215))
  then ascii_of_nat (n + 32) else c.

Definition py_lower (s : str) : str := map lower_char s.

(** [needle in hay] for strings. *)
Fixpoint str_prefixb (p s : str) : bool :=
  match p, s with
  | [], _ => true
  | c :: p', d :: s' => if ascii_dec c d then str_prefixb p' s' else false
  | _ :: _, [] => false
  end.

Fixpoint str_contains (needle hay : str) : bool :=
  str_prefixb needle hay ||
  match hay with [] => false | _ :: hay' => str_contains needle hay' end.

(** [a or b] where [a] is [str | None] and [b] a string. *)
Definition py_or (a : option str) (b : str) : str :=
  match a with Some s => if truthy s then s else b | None => b end.

(** ** Sentence splitting: [re.split(r'(?<=[.!?])\s+', s)]

    A split point is a maximal whitespace run whose preceding character is
    one of [. ! ?].  The state records what the scanner has just seen:
    [Plain] (start of string or an ordinary character), [AfterTerm]
    (a sentence-terminal character, so the look-behind holds) or [InSep]
    (inside a whitespace run that is being consumed as a separator). *)
Inductive scan_state := Plain | AfterTerm | InSep.

Definition is_term (c : ascii) : bool :=
  let n := nat_of_ascii c in (n =? 46) || (n =? 33) || (n =? 63).

Definition cons_head (c : ascii) (ps : list str) : list str :=
  match ps with p :: ps' => (c :: p) :: ps' | [] => [[c]] end.

Definition next_state (c : ascii) : scan_state :=
  if is_term c then AfterTerm else Plain.

Fixpoint sent_split (st : scan_state) (s : str) : list str :=
  match s with
  | [] => [[]]
  | c :: s' =>
      match st with
      | Plain => cons_head c (sent_split (next_state c) s')
      | AfterTerm =>
          if is_space c then [] :: sent_split InSep s'
          else cons_head c (sent_split (next_state c) s')
      | InSep =>
          if is_space c then sent_split InSep s'
          else cons_head c (sent_split (next_state c) s')
      end
  end.

Definition re_split_sentences (s : str) : list str := sent_split Plain s.

(** [parts[-n:]]; as [-0] is [0], [parts[-0:]] is the whole list. *)
Definition last_n {A} (n : nat) (l : list A) : list A :=
  match n with 0 => l | S _ => skipn (length l - n) l end.

(** ** Snippet extraction (bot.py lines 177-195) *)

Definition last_sentences (text : str) (n : nat) : str :=
  let parts := re_split_sentences (py_strip text) in
  let parts := List.filter truthy parts in
  match parts with
  | [] => []
  | _ => py_strip (join (L " ") (last_n n parts))
  end.

(** The marker "…" (U+2026) lies outside the modelled code points; it is
    kept as the three bytes of its UTF-8 encoding, none of which is
    whitespace, and only ever appended as a whole. *)
Definition ELLIPSIS : str := L "…".

Definition trim_words (text : str) (max_words : nat) : str :=
  let words := py_split text in
  if length words <=? max_words then text
  else join (L " ") (firstn max_words words) ++ ELLIPSIS.

Definition SNIPPET_MAX_WORDS : nat := 70.

(** One value of the map returned by [efetch_abstract_map]:
    [{"abstract": str|None, "conclusion": str|None}]. *)
Record meta := mkMeta { m_abstract : option str; m_conclusion : option str }.

Definition opt_str (o : option str) : str := py_or o [].

(** [build_snippet(meta_map_entry)]; the entry is [meta_map.get(pmid)], so
    [None] when the PMID has no metadata. *)
Definition build_snippet (entry : option meta) : option str * option str :=
  match entry with
  | None => (None, None)
  | Some m =>
      let abstract := py_strip (opt_str (m_abstract m)) in
      let concl := py_strip (opt_str (m_conclusion m)) in
      if truthy concl then (Some (L "Conclusion"), Some (trim_words concl SNIPPET_MAX_WORDS))
      else if truthy abstract then
        let ls := last_sentences abstract 2 in
        let fallback := if truthy ls then ls else abstract in
        (Some (L "From abstract"), Some (trim_words fallback SNIPPET_MAX_WORDS))
      else (None, None)
  end.

(** ** Abstract parsing in [efetch_abstract_map] (bot.py lines 159-174) *)

(** An [<AbstractText>] element: its [Label] and [NlmCategory] attributes
    ([None] when absent) and ["".join(t.itertext())]. *)
Record abstract_text := mkAT {
  at_label : option str; at_category : option str; at_text : str }.

(** A [<PubmedArticle>]: the text of [MedlineCitation/PMID] ([None] when the
    element or its text is missing) and the [AbstractText] children of
    [MedlineCitation/Article/Abstract] ([None] when there is no abstract). *)
Record article := mkArticle {
  art_pmid : option str; art_abstract : option (list abstract_text) }.

Definition section_label (t : abstract_text) : str :=
  py_lower (py_strip (py_or (at_label t) (py_or (at_category t) []))).

(** The loop over [AbstractText] elements: the pair
    ([abstract_texts], [conclusion_texts]). *)
Fixpoint collect_sections (ts : list abstract_text) : list str * list str :=
  match ts with
  | [] => ([], [])
  | t :: ts' =>
      let text := py_strip (at_text t) in
      let '(a, c) := collect_sections ts' in
      if truthy text then
        (text :: a,
         if str_contains (L "conclusion") (section_label t) then text :: c else c)
      else (a, c)
  end.

Definition join_or_none (texts : list str) : option str :=
  match texts with [] => None | _ => Some (py_strip (join (L " ") texts)) end.

(** One iteration of the article loop: [None] for [continue], otherwise the
    key and value written by [out[pid] = ...]. *)
Definition parse_article (a : article) : option (str * meta) :=
  match art_pmid a with
  | None => None
  | Some t =>
      if truthy t then
        let pid := py_strip t in
        let '(ats, cts) :=
          match art_abstract a with None => ([], []) | Some ts => collect_sections ts end in
        Some (pid, mkMeta (join_or_none ats) (join_or_none cts))
      else None
  end.

Example last_sentences_ex : last_sentences (L "A. B. C.") 2 = L "B. C.".
Proof. reflexivity. Qed.

Example build_snippet_ex :
  build_snippet (Some (mkMeta (Some (L "A. B. C.")) None))
  = (Some (L "From abstract"), Some (L "B. C.")).
Proof. reflexivity. Qed.

Example parse_article_ex :
  parse_article (mkArticle (Some (L "123"))
     (Some [mkAT (Some (L "Conclusions")) None (L "X Y Z.")]))
  = Some (L "123", mkMeta (Some (L "X Y Z.")) (Some (L "X Y Z."))).
Proof. reflexivity. Qed.

(** ** Digest items (the dicts built in [esummary], bot.py lines 123-130) *)

Record item := mkItem {
  it_pmid : str; it_title : str; it_journal : str;
  it_date : str; it_doi : str; it_url : str }.

(** [html.escape(s)] (with its default [quote=True]). *)
Definition escape_char (c : ascii) : str :=
  let n := nat_of_ascii c in
  if n =? 38 then L "&amp;"
  else if n =? 60 then L "&lt;"
  else if n =? 62 then L "&gt;"
  else if n =? 34 then L "&quot;"
  else if n =? 39 then L "&#x27;"
  else [c].

Definition html_escape (s : str) : str := flat_map escape_char s.

(** Template text of an f-string in which a backtick stands for a double
    quote. *)
Definition Q (s : string) : str :=
  map (fun c => if ascii_dec c "`"%char then ascii_of_nat 34 else c) (L s).

(** [s.replace(old, new)] for a non-empty [old]. *)
Fixpoint replace_go (fuel : nat) (old new s : str) : str :=
  match fuel with
  | 0 => s
  | S f =>
      match s with
      | [] => []
      | c :: s' =>
          if str_prefixb old s then new ++ replace_go f old new (drop (length old) s)
          else c :: replace_go f old new s'
      end
  end.

Definition py_replace (old new s : str) : str := replace_go (length s) old new s.

(** Configuration constants (bot.py lines 18-36). *)
Definition JOURNALS : list str := map L [
  "Pain[ta]";"Pain Physician[ta]";"Pain Med[ta]";"Reg Anesth Pain Med[ta]";
  "J Pain[ta]";"Interv Pain Med[ta]";"Cephalalgia[ta]";"J Headache Pain[ta]";
  "Pain Rep[ta]";"J Pain Res[ta]";"Eur J Pain[ta]";"Pain Ther[ta]";
  "Scand J Pain[ta]";"Mol Pain[ta]";"Pain Pract[ta]";"Pain Res Manag[ta]"].

Definition KEYWORDS : list str := map Q [
  "Pain Management";"Pain Measurement";"Analgesia";"`Analgesics, Non-Narcotic`";
  "`Analgesics, Opioid`";"`Nerve Block`";"`Epidural Analgesia`";
  "`Spinal Cord Stimulation`";"Neuromodulation";"`Local Anesthesia`";
  "`Anesthesia, Local`";"`Anesthesia, Epidural`";"Injections";
  "`Acupuncture Therapy`";"`Physical Therapy Modalities`";
  "`Surgical Procedures, Operative`";"Therapeutics"].

Definition ADD_HUMANS_FILTER : bool := false.
Definition INCLUDE_CONCLUSION_SNIPPET : bool := true.

(** ** HTML rendering

    An HTML f-string is modelled as the list of its pieces: template text
    ([Lit]) and interpolations ([Emb]).  An interpolation records which value
    it embeds, whether it sits in element text or inside an attribute value,
    and whether the source wraps it in [html.escape]. *)
Inductive field :=
  | FTitle | FJournal | FDate | FDoi | FPmid | FUrl | FAbstract | FSnippet
  | FLabel | FWindow | FBaseUrl | FJournalList.

(** Values that come from the bibliographic index.  [FUrl] is the PubMed
    URL built from the PMID in [esummary]. *)
Definition external (f : field) : bool :=
  match f with
  | FTitle | FJournal | FDate | FDoi | FPmid | FUrl | FAbstract | FSnippet => true
  | FLabel | FWindow | FBaseUrl | FJournalList => false
  end.

Inductive position := InText | InAttr.

Inductive frag :=
  | Lit (s : str)
  | Emb (f : field) (p : position) (escaped : bool) (s : str).

Definition render_frag (fr : frag) : str :=
  match fr with
  | Lit s => s
  | Emb _ _ true s => html_escape s
  | Emb _ _ false s => s
  end.

Definition render (fs : list frag) : str := concat (map render_frag fs).

Definition meta_map := gmap str meta.

(** One [<li>] row of [build_html] (bot.py lines 243-261);
    [base_url] is [ABSTRACTS_BASE_URL]. *)
Definition html_row (mm : option meta_map) (base_url : str) (it : item) : list frag :=
  let doi := it_doi it in
  let doi_link :=
    if truthy doi then
      [Lit (Q " | DOI: <a href=`https://doi.org/"); Emb FDoi InAttr false doi;
       Lit (Q "`>"); Emb FDoi InText true doi; Lit (L "</a>")]
    else [] in
  let snippet_html :=
    if INCLUDE_CONCLUSION_SNIPPET then
      match mm with
      | Some m =>
          match build_snippet (m !! it_pmid it) with
          | (label, Some snip) =>
              if truthy snip then
                [Lit (L "<div><strong>"); Emb FLabel InText true (opt_str label);
                 Lit (L ":</strong> "); Emb FSnippet InText true snip; Lit (L "</div>")]
              else []
          | (_, None) => []
          end
      | None => []
      end
    else [] in
  let full_abs_link :=
    if truthy base_url then
      [Lit (Q " <a href=`"); Emb FBaseUrl InAttr false base_url;
       Lit (L "/abstracts.html#"); Emb FPmid InAttr false (it_pmid it);
       Lit (Q "`>Full abstract</a>")]
    else [] in
  [Lit (Q "<li><a href=`"); Emb FUrl InAttr false (it_url it); Lit (Q "`>");
   Emb FTitle InText true (it_title it); Lit (L "</a>");
   Lit (L " — <em>"); Emb FJournal InText true (it_journal it); Lit (L "</em> (");
   Emb FDate InText true (it_date it); Lit (L ")")]
  ++ doi_link ++ full_abs_link ++ snippet_html ++ [Lit (L "</li>")].

Definition build_html_frags (items : list item) (mindate maxdate : str)
    (mm : option meta_map) (base_url : str) : list frag :=
  match items with
  | [] =>
      [Lit (L "<p>No new items between "); Emb FWindow InText false mindate;
       Lit (L " and "); Emb FWindow InText false maxdate; Lit (L ".</p>")]
  | _ =>
      [Lit (L "
    <h2>Pain Literature Weekly</h2>
    <p>Coverage (EDAT): "); Emb FWindow InText false mindate;
       Lit (L " to "); Emb FWindow InText false maxdate; Lit (L "; journals: ");
       Emb FJournalList InText false
         (join (L ", ") (map (py_replace (L "[ta]") []) JOURNALS));
       Lit (L "</p>
    <ol>
    ")]
      ++ concat (map (html_row mm base_url) items)
      ++ [Lit (L "
    </ol>
    ")]
  end.

Definition build_html (items : list item) (mindate maxdate : str)
    (mm : option meta_map) (base_url : str) : str :=
  render (build_html_frags items mindate maxdate mm base_url).

(** One [<section>] of [build_abstracts_page] (bot.py lines 202-221). *)
Definition page_row (mm : meta_map) (it : item) : list frag :=
  let pmid := it_pmid it in
  let doi := it_doi it in
  let doi_html :=
    if truthy doi then
      [Lit (Q "<div>DOI: <a href=`https://doi.org/"); Emb FDoi InAttr true doi;
       Lit (Q "`>"); Emb FDoi InText true doi; Lit (L "</a></div>")]
    else [] in
  let abs_meta := mm !! pmid in
  let abstract :=
    py_or (match abs_meta with Some m => m_abstract m | None => None end)
          (L "(No abstract available)") in
  [Lit (Q "
        <section id=`"); Emb FPmid InAttr false pmid;
   Lit (Q "` style=`margin-bottom:2rem;`>
          <h3>"); Emb FTitle InText true (it_title it);
   Lit (L "</h3>
          <div><em>"); Emb FJournal InText true (it_journal it);
   Lit (L "</em> ("); Emb FDate InText true (it_date it);
   Lit (Q ") | PMID: <a href=`https://pubmed.ncbi.nlm.nih.gov/");
   Emb FPmid InAttr false pmid; Lit (Q "/`>"); Emb FPmid InText false pmid;
   Lit (L "</a></div>
          ")]
  ++ doi_html ++
  [Lit (L "
          <h4>Abstract</h4>
          <p>"); Emb FAbstract InText true abstract;
   Lit (Q "</p>
          <div><a href=`#top`>Back to top</a></div>
        </section>
        ")].

(** [' '.join(rows)] over fragment lists. *)
Fixpoint join_frags (sep : list frag) (rows : list (list frag)) : list frag :=
  match rows with
  | [] => []
  | [r] => r
  | r :: rs => r ++ sep ++ join_frags sep rs
  end.

(** The page written by [build_abstracts_page]. *)
Definition build_abstracts_page_frags (items : list item) (mm : meta_map)
    (mindate maxdate : str) : list frag :=
  let rows := map (page_row mm) items in
  [Lit (Q "<!doctype html>
<html lang=`en`><head>
<meta charset=`utf-8` />
<title>Pain Literature Abstracts — "); Emb FWindow InText false mindate;
   Lit (L " to "); Emb FWindow InText false maxdate;
   Lit (Q "</title>
<meta name=`viewport` content=`width=device-width, initial-scale=1` />
</head><body>
<a id=`top`></a>
<h1>Pain Literature Abstracts</h1>
<p>Coverage (EDAT): "); Emb FWindow InText false mindate;
   Lit (L " to "); Emb FWindow InText false maxdate; Lit (L "</p>
")]
  ++ (match rows with
      | [] => [Lit (L "<p>No abstracts this week.</p>")]
      | _ => join_frags [Lit (L " ")] rows
      end)
  ++ [Lit (L "
</body></html>")].

Definition build_abstracts_page (items : list item) (mm : meta_map)
    (mindate maxdate : str) : str :=
  render (build_abstracts_page_frags items mm mindate maxdate).

(** [build_text] (bot.py lines 270-283). *)
Definition text_line (mm : option meta_map) (base_url : str) (it : item) : str :=
  let doi_part := if truthy (it_doi it) then L " | DOI: https://doi.org/" ++ it_doi it else [] in
  let full_abs :=
    if truthy base_url
    then L " | Full abstract: " ++ base_url ++ L "/abstracts.html#" ++ it_pmid it
    else [] in
  let base :=
    L "- " ++ it_title it ++ L " — " ++ it_journal it ++ L " (" ++ it_date it ++ L ") "
    ++ it_url it ++ doi_part ++ full_abs in
  if INCLUDE_CONCLUSION_SNIPPET then
    match mm with
    | Some m =>
        match build_snippet (m !! it_pmid it) with
        | (label, Some snip) =>
            if truthy snip then base ++ L "
  " ++ opt_str label ++ L ": " ++ snip else base
        | (_, None) => base
        end
    | None => base
    end
  else base.

Definition build_text (items : list item) (mindate maxdate : str)
    (mm : option meta_map) (base_url : str) : str :=
  match items with
  | [] => L "No new items between " ++ mindate ++ L " and " ++ maxdate ++ L "."
  | _ =>
      join (L "
")
        ([L "Pain Literature Weekly"; L "Coverage (EDAT): " ++ mindate ++ L " to " ++ maxdate]
         ++ map (text_line mm base_url) items)
  end.

(** ** [esummary] (bot.py lines 107-143) *)

(** A per-id entry of the JSON [result] object: the optional string fields
    the code reads and the [articleids] list of ([idtype], [value]) pairs. *)
Record docsum := mkDocsum {
  ds_title : option str; ds_fulljournalname : option str; ds_source : option str;
  ds_sortpubdate : option str; ds_pubdate : option str;
  ds_articleids : list (option str * option str) }.

(** The loop over [articleids]; a [None] value behaves like [""] everywhere
    the DOI is used. *)
Fixpoint find_doi (ids : list (option str * option str)) : str :=
  match ids with
  | [] => []
  | (t, v) :: ids' => if decide (t = Some (L "doi")) then opt_str v else find_doi ids'
  end.

Definition make_item (pid : str) (v : docsum) : item :=
  mkItem pid
    (py_strip (py_or (ds_title v) []))
    (py_or (ds_fulljournalname v) (py_or (ds_source v) []))
    (py_or (ds_sortpubdate v) (py_or (ds_pubdate v) []))
    (find_doi (ds_articleids v))
    (L "https://pubmed.ncbi.nlm.nih.gov/" ++ pid ++ L "/").

(** [for pid, v in result.items(): if pid == "uids": continue ...]. *)
Definition summary_items (result : list (str * docsum)) : list item :=
  map (fun '(pid, v) => make_item pid v)
      (List.filter (fun '(pid, _) => negb (bool_decide (pid = L "uids"))) result).

(** The dict key [("doi", doi.lower())] or [("pmid", pid)]. *)
Inductive dkey := KDoi (d : str) | KPmid (p : str).

#[global] Instance dkey_eq_dec : EqDecision dkey.
Proof. solve_decision. Defined.

Definition dedup_key (it : item) : dkey :=
  if truthy (it_doi it) then KDoi (py_lower (it_doi it)) else KPmid (it_pmid it).

(** The insertion-ordered dict [dedup] as an association list:
    [if key not in dedup: dedup[key] = it]. *)
Fixpoint dedup_go (d : list (dkey * item)) (items : list item) : list (dkey * item) :=
  match items with
  | [] => d
  | it :: items' =>
      let k := dedup_key it in
      if decide (k ∈ map fst d) then dedup_go d items'
      else dedup_go (d ++ [(k, it)]) items'
  end.

(** [list(dedup.values())]. *)
Definition dedup (items : list item) : list item := map snd (dedup_go [] items).

(** *** [parse_sortdate]: [datetime.strptime(s, "%Y/%m/%d")]

    [_strptime] matches [s] against the regex built from the format,
    [(?P<Y>\d\d\d\d)/(?P<m>1[0-2]|0[1-9]|[1-9])/(?P<d>3[0-1]|[1-2]\d|0[1-9]|[1-9]| [1-9])],
    fails with "unconverted data remains" unless the match covers all of
    [s], and then builds the date, which fails for year 0 or a day past the
    end of the month.  The first alternative that matches is the one the
    regex keeps: for the month, backtracking to a shorter alternative can
    never be followed by the required ['/']; the day ends the pattern. *)
Definition digit (c : ascii) : option Z :=
  let n := nat_of_ascii c in
  if (48 <=? n) && (n <=? 57) then Some (Z.of_nat (n - 48)) else None.

Definition is_char (n : nat) (c : ascii) : bool := Nat.eqb (nat_of_ascii c) n.

Definition parse_year (s : str) : option (Z * str) :=
  match s with
  | a :: b :: c :: d :: r =>
      match digit a, digit b, digit c, digit d with
      | Some a', Some b', Some c', Some d' => Some (1000 * a' + 100 * b' + 10 * c' + d', r)%Z
      | _, _, _, _ => None
      end
  | _ => None
  end.

Definition in_range (lo hi : Z) (o : option Z) : bool :=
  match o with Some v => (lo <=? v)%Z && (v <=? hi)%Z | None => false end.

Definition dval (c : ascii) : Z := match digit c with Some v => v | None => 0%Z end.

Definition parse_month (s : str) : option (Z * str) :=
  match s with
  | c1 :: c2 :: r =>
      if is_char 49 c1 && in_range 0 2 (digit c2) then Some (10 + dval c2, r)%Z
      else if is_char 48 c1 && in_range 1 9 (digit c2) then Some (dval c2, r)
      else if in_range 1 9 (digit c1) then Some (dval c1, c2 :: r)
      else None
  | [c1] => if in_range 1 9 (digit c1) then Some (dval c1, []) else None
  | [] => None
  end.

Definition parse_day (s : str) : option (Z * str) :=
  match s with
  | c1 :: c2 :: r =>
      if is_char 51 c1 && in_range 0 1 (digit c2) then Some (30 + dval c2, r)%Z
      else if in_range 1 2 (digit c1) && in_range 0 9 (digit c2)
        then Some (10 * dval c1 + dval c2, r)%Z
      else if is_char 48 c1 && in_range 1 9 (digit c2) then Some (dval c2, r)
      else if in_range 1 9 (digit c1) then Some (dval c1, c2 :: r)
      else if is_char 32 c1 && in_range 1 9 (digit c2) then Some (dval c2, r)
      else None
  | [c1] => if in_range 1 9 (digit c1) then Some (dval c1, []) else None
  | [] => None
  end.

Definition is_leap (y : Z) : bool :=
  ((Z.modulo y 4 =? 0) && negb (Z.modulo y 100 =? 0) || (Z.modulo y 400 =? 0))%Z.

Definition days_in_month (y m : Z) : Z :=
  (if m =? 2 then (if is_leap y then 29 else 28)
   else if (m =? 4) || (m =? 6) || (m =? 9) || (m =? 11) then 30 else 31)%Z.

Definition date := (Z * Z * Z)%type.

Definition strptime_ymd (s : str) : option date :=
  match parse_year s with
  | Some (y, c :: r1) =>
      if is_char 47 c then
        match parse_month r1 with
        | Some (m, c' :: r2) =>
            if is_char 47 c' then
              match parse_day r2 with
              | Some (d, []) =>
                  if (1 <=? y)%Z && (d <=? days_in_month y m)%Z then Some (y, m, d) else None
              | _ => None
              end
            else None
        | _ => None
        end
      else None
  | _ => None
  end.

(** [datetime.datetime.min], the value of a date that does not parse. *)
Definition DATETIME_MIN : date := (1, 1, 1)%Z.

Definition parse_sortdate (s : str) : date :=
  match strptime_ymd s with Some d => d | None => DATETIME_MIN end.

(** Datetime comparison (all parsed times are midnight). *)
Definition date_ltb (a b : date) : bool :=
  let '(y1, m1, d1) := a in let '(y2, m2, d2) := b in
  (y1 <? y2)%Z || ((y1 =? y2)%Z && ((m1 <? m2)%Z || ((m1 =? m2)%Z && (d1 <? d2)%Z))).

Definition date_leb (a b : date) : bool := negb (date_ltb b a).

(** [items.sort(key=..., reverse=True)]: Python's sort is stable, also with
    [reverse=True].  Any stable sort by the same key yields the same list;
    the model uses insertion sort. *)
Fixpoint insert_desc (key : item -> date) (x : item) (l : list item) : list item :=
  match l with
  | [] => [x]
  | y :: l' => if date_leb (key y) (key x) then x :: y :: l' else y :: insert_desc key x l'
  end.

Fixpoint sort_desc (key : item -> date) (l : list item) : list item :=
  match l with
  | [] => []
  | x :: l' => insert_desc key x (sort_desc key l')
  end.

Definition sort_by_date (items : list item) : list item :=
  sort_desc (fun it => parse_sortdate (it_date it)) items.

(** The part of [esummary] after the HTTP request. *)
Definition esummary_result (result : list (str * docsum)) : list item :=
  sort_by_date (dedup (summary_items result)).

Example parse_sortdate_ex1 : parse_sortdate (L "2024/03/10") = (2024, 3, 10)%Z.
Proof. reflexivity. Qed.
Example parse_sortdate_ex2 : parse_sortdate (L "2024/02/30") = DATETIME_MIN.
Proof. reflexivity. Qed.
Example parse_sortdate_ex3 : parse_sortdate (L "2024/3/ 5") = (2024, 3, 5)%Z.
Proof. reflexivity. Qed.
Example parse_sortdate_ex4 : parse_sortdate (L "2024/03/01 00:00") = DATETIME_MIN.
Proof. reflexivity. Qed.

(** ** The search window: [last_7d_window_ist] (bot.py lines 79-83)

    [today_ist] is an input (the default reads the clock).  [date] values
    follow the [datetime] module: proleptic Gregorian calendar, years 1 to
    [MAXYEAR]. *)
Definition MAXYEAR : Z := 9999.

Definition valid_date (d : date) : bool :=
  let '(y, m, dd) := d in
  (1 <=? y)%Z && (y <=? MAXYEAR)%Z && (1 <=? m)%Z && (m <=? 12)%Z
  && (1 <=? dd)%Z && (dd <=? days_in_month y m)%Z.

(** The day before [d]; [None] before 0001-01-01, where date arithmetic
    raises [OverflowError]. *)
Definition prev_day (d : date) : option date :=
  let '(y, m, dd) := d in
  if (1 <? dd)%Z then Some (y, m, dd - 1)%Z
  else if (1 <? m)%Z then Some (y, m - 1, days_in_month y (m - 1))%Z
  else if (1 <? y)%Z then Some (y - 1, 12, 31)%Z
  else None.

(** [d - datetime.timedelta(days=n)]: the date [n] days earlier. *)
Fixpoint sub_days (n : nat) (d : date) : option date :=
  match n with
  | 0 => Some d
  | S n' => match prev_day d with Some d' => sub_days n' d' | None => None end
  end.

(** [date.toordinal()], as [_ymd2ord] of the [datetime] module computes it:
    day 1 is 0001-01-01. *)
Definition days_before_year (y : Z) : Z :=
  let y' := (y - 1)%Z in (y' * 365 + y' / 4 - y' / 100 + y' / 400)%Z.

Definition DAYS_BEFORE_MONTH : list Z :=
  [-1; 0; 31; 59; 90; 120; 151; 181; 212; 243; 273; 304; 334]%Z.

Definition days_before_month (y m : Z) : Z :=
  (nth (Z.to_nat m) DAYS_BEFORE_MONTH 0 + if (2 <? m)%Z && is_leap y then 1 else 0)%Z.

Definition toordinal (d : date) : Z :=
  let '(y, m, dd) := d in (days_before_year y + days_before_month y m + dd)%Z.

Definition digit_char (n : Z) : ascii := ascii_of_nat (48 + Z.to_nat n).

(** [%Y] with the C library of the Linux runners: the year in decimal
    without padding (years have at most four digits). *)
Fixpoint dec_go (fuel : nat) (n : Z) (acc : str) : str :=
  match fuel with
  | 0 => acc
  | S f =>
      let acc' := digit_char (n mod 10) :: acc in
      if (n <? 10)%Z then acc' else dec_go f (n / 10) acc'
  end.

Definition fmt_year (y : Z) : str := dec_go 4 y [].

(** [%m] and [%d]: two digits, zero-padded. *)
Definition pad2 (n : Z) : str := [digit_char (n / 10); digit_char (n mod 10)].

(** [d.strftime("%Y/%m/%d")]. *)
Definition strftime_ymd (d : date) : str :=
  let '(y, m, dd) := d in fmt_year y ++ L "/" ++ pad2 m ++ L "/" ++ pad2 dd.

(** [None] stands for the [OverflowError] of [today_ist - timedelta(days=7)]. *)
Definition last_7d_window_ist (today : date) : option (str * str) :=
  match sub_days 7 today with
  | Some start => Some (strftime_ymd start, strftime_ymd today)
  | None => None
  end.

Example last_7d_window_ist_ex :
  last_7d_window_ist (2024, 3, 5)%Z = Some (L "2024/02/27", L "2024/03/05").
Proof. reflexivity. Qed.

(** ** Request parameters: [eutils_params] (bot.py lines 90-96)

    A parameter value is a string or an integer ([retmax]); a dict of
    parameters is the list of its entries in insertion order. *)
Inductive pval := PStr (s : str) | PInt (n : Z).

Definition params := list (str * pval).

(** [d.get(k)]. *)
Fixpoint dict_get (k : str) (d : params) : option pval :=
  match d with
  | [] => None
  | (k', v) :: d' => if decide (k' = k) then Some v else dict_get k d'
  end.

(** [d[k] = v]: an existing key keeps its position. *)
Fixpoint dict_set (k : str) (v : pval) (d : params) : params :=
  match d with
  | [] => [(k, v)]
  | (k', v') :: d' =>
      if decide (k' = k) then (k', v) :: d' else (k', v') :: dict_set k v d'
  end.

(** [d.update(e)]. *)
Definition dict_update (d e : params) : params :=
  fold_left (fun acc '(k, v) => dict_set k v acc) e d.

(** [tool], [email] and [api_key] are [NCBI_TOOL], [NCBI_EMAIL] and
    [NCBI_API_KEY] (bot.py lines 45-47); [extra] is [None] or a dict. *)
Definition eutils_params (tool email api_key : str) (extra : option params) : params :=
  let p := [(L "tool", PStr tool); (L "email", PStr email)] in
  let p := if truthy api_key then dict_set (L "api_key") (PStr api_key) p else p in
  match extra with
  | Some ((_ :: _) as e) => dict_update p e
  | _ => p
  end.

(** ** The abstracts base URL (bot.py line 50):
    [os.environ.get("ABSTRACTS_BASE_URL", "").rstrip("/")], with the
    environment value as an input ([None] when the variable is unset). *)
Fixpoint drop_char (c : ascii) (s : str) : str :=
  match s with
  | d :: s' => if ascii_dec d c then drop_char c s' else s
  | [] => []
  end.

(** [s.rstrip(c)] for a one-character argument. *)
Definition py_rstrip_char (c : ascii) (s : str) : str := rev (drop_char c (rev s)).

Definition abstracts_base_url (env : option str) : str :=
  py_rstrip_char "/"%char (match env with Some v => v | None => [] end).

(** ** The pipeline ([__main__], bot.py lines 299-316)

    The index is an input: the id list [esearch] receives, the [result]
    object of [esummary] and the [PubmedArticle]s of each [efetch] call.
    HTTP failures ([raise_for_status]) are not modelled.  Every request and
    every side effect is appended to a trace. *)
Record index := mkIndex {
  idx_search : str -> str -> str -> list str;
  idx_summary : list str -> list (str * docsum);
  idx_fetch : list str -> list article }.

Inductive event :=
  | ESearch (term mindate maxdate : str)
  | ESummary (ids : list str)
  | EFetch (ids : list str)
  | EWrite (path content : str)
  | ESend (html text subject : str).

Definition M (A : Type) : Type := list event -> A * list event.

Definition ret {A} (a : A) : M A := fun tr => (a, tr).
Definition bind {A B} (m : M A) (k : A -> M B) : M B :=
  fun tr => let '(a, tr') := m tr in k a tr'.
Definition emit (e : event) : M unit := fun tr => (tt, tr ++ [e]).

Notation "'let!' x ':=' m 'in' k" := (bind m (fun x => k))
  (at level 200, x name, m at level 100, k at level 200).
Notation "m ;; k" := (bind m (fun _ => k)) (at level 100, right associativity).

Section Pipeline.
Variable idx : index.

Definition esearch (term mindate maxdate : str) : M (list str) :=
  emit (ESearch term mindate maxdate) ;; ret (idx_search idx term mindate maxdate).

Definition esummary (pmids : list str) : M (list item) :=
  match pmids with
  | [] => ret []
  | _ => emit (ESummary pmids) ;; ret (esummary_result (idx_summary idx pmids))
  end.

Definition BATCH : nat := 100.

(** [pmids[i:i+BATCH] for i in range(0, len(pmids), BATCH)]. *)
Fixpoint chunks_go (fuel : nat) (l : list str) : list (list str) :=
  match fuel with
  | 0 => []
  | S f => match l with [] => [] | _ => firstn BATCH l :: chunks_go f (skipn BATCH l) end
  end.

Definition chunks (l : list str) : list (list str) := chunks_go (length l) l.

Definition add_article (out : meta_map) (a : article) : meta_map :=
  match parse_article a with Some (pid, m) => <[pid := m]> out | None => out end.

Fixpoint fetch_chunks (out : meta_map) (cs : list (list str)) : M meta_map :=
  match cs with
  | [] => ret out
  | c :: cs' =>
      emit (EFetch c) ;;
      fetch_chunks (foldl add_article out (idx_fetch idx c)) cs'
  end.

Definition efetch_abstract_map (pmids : list str) : M meta_map :=
  match pmids with
  | [] => ret ∅
  | _ => fetch_chunks ∅ (chunks pmids)
  end.

(** The main block, for the window [(mindate, maxdate)] returned by
    [last_7d_window_ist] and [base_url = ABSTRACTS_BASE_URL]. *)
Definition main (base_url mindate maxdate : str) : M unit :=
  let term := pubmed_query JOURNALS KEYWORDS ADD_HUMANS_FILTER in
  let! pmids := esearch term mindate maxdate in
  let! items := esummary pmids in
  let! mm :=
    (if INCLUDE_CONCLUSION_SNIPPET || truthy base_url
     then bind (efetch_abstract_map (map it_pmid items)) (fun m => ret (Some m))
     else ret None) in
  (if truthy base_url
   then emit (EWrite (L "abstracts.html")
                (build_abstracts_page items (match mm with Some m => m | None => ∅ end)
                   mindate maxdate))
   else ret tt) ;;
  let html_body := build_html items mindate maxdate mm base_url in
  let text_body := build_text items mindate maxdate mm base_url in
  let subject := L "Pain Literature Weekly — " ++ mindate ++ L " to " ++ maxdate in
  emit (ESend html_body text_body subject).

Definition run (base_url mindate maxdate : str) : list event :=
  snd (main base_url mindate maxdate []).

End Pipeline.

(** * Auxiliary notions for the statements *)

(** [ws] occurs as a contiguous run inside [big]. *)
Definition segment {A} (ws big : list A) : Prop := exists pre post, big = pre ++ ws ++ post.

(** A string that [str.strip()] leaves unchanged and that is not empty:
    its first and last characters are not whitespace. *)
Definition tight (s : str) : Prop := starts_ns s = true /\ starts_ns (rev s) = true.

(** The [text] of an [AbstractText] element after [.strip()]. *)
Definition stripped_text (t : abstract_text) : str := py_strip (at_text t).

(** The test [if "conclusion" in label]. *)
Definition is_conclusion (t : abstract_text) : bool :=
  str_contains (L "conclusion") (section_label t).

(** The [AbstractText] children of an article, none when it has no abstract. *)
Definition sections (a : article) : list abstract_text :=
  match art_abstract a with None => [] | Some ts => ts end.

(** The lists [abstract_texts] and [conclusion_texts] as the loop leaves them. *)
Definition abstract_texts (ts : list abstract_text) : list str :=
  map stripped_text (List.filter (fun t => truthy (stripped_text t)) ts).

Definition conclusion_texts (ts : list abstract_text) : list str :=
  map stripped_text (List.filter (fun t => truthy (stripped_text t) && is_conclusion t) ts).

(** A word as [str.split()] produces it. *)
Definition wordlike (w : str) : Prop := w <> [] /\ Forall (fun c => is_space c = false) w.

(** An index that answers every request with nothing. *)
Definition empty_index : index :=
  mkIndex (fun _ _ _ => []) (fun _ => []) (fun _ => []).

(** What the C1 development establishes about one piece of HTML: title,
    journal, date, abstract and snippet text are escaped wherever they
    appear, the DOI is escaped where it is link text, and the PMID and the
    PubMed URL built from it are embedded as they are. *)
Definition escape_ok (fr : frag) : Prop :=
  match fr with
  | Lit _ => True
  | Emb f p esc _ =>
      ((f = FTitle \/ f = FJournal \/ f = FDate \/ f = FAbstract \/ f = FSnippet
        \/ (f = FDoi /\ p = InText)) -> esc = true)
      /\ (f = FPmid \/ f = FUrl -> esc = false)
  end.

(** A piece of HTML that embeds the DOI does so through [html.escape]. *)
Definition doi_escaped (fr : frag) : Prop :=
  match fr with Emb FDoi _ esc _ => esc = true | _ => True end.

(** * Lemmas on the string model *)

Lemma drop_ws_cons_ns (c : ascii) (s : str) :
  is_space c = false -> drop_ws (c :: s) = c :: s.
Proof. simpl. intros ->. reflexivity. Qed.

Lemma py_strip_tight (c d : ascii) (s : str) :
  is_space c = false -> is_space d = false ->
  py_strip (c :: s ++ [d]) = c :: s ++ [d].
Proof.
  intros Hc Hd. unfold py_strip.
  rewrite drop_ws_cons_ns by done.
  assert (rev (c :: s ++ [d]) = d :: rev s ++ [c]) as ->.
  { simpl. rewrite rev_app_distr. simpl. reflexivity. }
  rewrite drop_ws_cons_ns by done.
  simpl. rewrite rev_app_distr. simpl. rewrite rev_involutive. reflexivity.
Qed.

Lemma join_truthy (sep : str) (l : list str) :
  truthy sep = true -> l <> [] -> l <> [[]] -> truthy (join sep l) = true.
Proof.
  intros Hs Hl Hl'. destruct l as [|w [|w' l]]; [done| |].
  - destruct w; [done|reflexivity].
  - simpl. destruct w; simpl; [|reflexivity]. destruct sep; done.
Qed.

Lemma truthy_cons_app (c : ascii) (s t : str) : truthy ((c :: s) ++ t) = true.
Proof. reflexivity. Qed.

(** * Claims *)

(** C2 (code defect): with an empty journal list the journal clause is
    dropped but the keyword clause is still prefixed by [" AND "]; the
    query starts with a boolean operator that has no left operand. *)
Theorem pubmed_query_empty_journals :
  pubmed_query [] [L "Pain Management"] false = L "AND (Pain Management)".
Proof. reflexivity. Qed.

(** C3 (counterexample): a keyword list holding only the empty token is
    non-empty, yet [pubmed_query] drops the keyword clause instead of
    producing ["(j1) AND ()"]. *)
Lemma pubmed_query_empty_token_cex :
  pubmed_query [L "Pain[ta]"] [[]] false
  <> L "(" ++ join (L " OR ") [L "Pain[ta]"] ++ L ") AND ("
       ++ join (L " OR ") [[]] ++ L ")".
Proof. vm_compute. discriminate. Qed.

(** C3 (amended): when the journal list is non-empty and not the single
    empty token, [pubmed_query] without the demographic filter returns
    exactly ["(j1 OR ... OR jn) AND (k1 OR ... OR km)"] for a keyword list
    that is non-empty and not the single empty token, and ["(j1 OR ... OR jn)"]
    for the keyword list [[""]], whose clause is omitted. *)
Theorem pubmed_query_two_clauses (journals keywords : list str) :
  journals <> [] -> journals <> [[]] ->
  (keywords <> [] -> keywords <> [[]] ->
   pubmed_query journals keywords false
   = L "(" ++ join (L " OR ") journals ++ L ") AND ("
       ++ join (L " OR ") keywords ++ L ")")
  /\ pubmed_query journals [[]] false = L "(" ++ join (L " OR ") journals ++ L ")".
Proof.
  intros Hj1 Hj2. split.
  - intros Hk1 Hk2. unfold pubmed_query.
    rewrite (join_truthy _ journals) by done.
    destruct keywords as [|k ks]; [done|].
    rewrite (join_truthy _ (k :: ks)) by done.
    set (j := join (L " OR ") journals). set (kk := join (L " OR ") (k :: ks)).
    assert ((L "(" ++ j ++ L ")") ++ L " AND (" ++ kk ++ L ")"
            = "("%char :: (j ++ L ") AND (" ++ kk) ++ [")"%char]) as ->.
    { simpl. rewrite <- !app_assoc. reflexivity. }
    rewrite py_strip_tight by reflexivity.
    simpl. rewrite <- !app_assoc. reflexivity.
  - unfold pubmed_query.
    rewrite (join_truthy _ journals) by done.
    change (join (L " OR ") [[]]) with (@nil ascii). cbv iota beta.
    set (j := join (L " OR ") journals).
    change (L "(" ++ j ++ L ")") with ("("%char :: j ++ [")"%char]).
    apply py_strip_tight; reflexivity.
Qed.

Lemma pubmed_query_two_clauses_witness :
  ([L "Pain[ta]"] <> [] /\ [L "Pain[ta]"] <> [[]]
   /\ [L "Analgesia"] <> [] /\ [L "Analgesia"] <> [[]]) /\
  pubmed_query [L "Pain[ta]"] [L "Analgesia"] false = L "(Pain[ta]) AND (Analgesia)"
  /\ pubmed_query [L "Pain[ta]"] [[]] false = L "(Pain[ta])".
Proof.
  assert (H1 : [L "Pain[ta]"] <> []) by discriminate.
  assert (H2 : [L "Pain[ta]"] <> [[]]) by discriminate.
  assert (H3 : [L "Analgesia"] <> []) by discriminate.
  assert (H4 : [L "Analgesia"] <> [[]]) by discriminate.
  destruct (pubmed_query_two_clauses [L "Pain[ta]"] [L "Analgesia"] H1 H2) as [A B].
  split; [exact (conj H1 (conj H2 (conj H3 H4)))|].
  split; [exact (A H3 H4)|exact B].
Defined.

(** C8 (amended): when the identifier search returns no ids, the only
    request to the index is that search (the summary and metadata fetches
    return at once), the abstracts page is written when a base URL is
    configured, and the digest is still sent, with the HTML body
    ["<p>No new items between S and E.</p>"] and the plain-text body
    ["No new items between S and E."]. *)
Theorem run_no_ids (idx : index) (base_url mindate maxdate : str) :
  idx_search idx (pubmed_query JOURNALS KEYWORDS ADD_HUMANS_FILTER) mindate maxdate = [] ->
  run idx base_url mindate maxdate =
    [ESearch (pubmed_query JOURNALS KEYWORDS ADD_HUMANS_FILTER) mindate maxdate]
    ++ (if truthy base_url
        then [EWrite (L "abstracts.html") (build_abstracts_page [] ∅ mindate maxdate)]
        else [])
    ++ [ESend (L "<p>No new items between " ++ mindate ++ L " and " ++ maxdate ++ L ".</p>")
              (L "No new items between " ++ mindate ++ L " and " ++ maxdate ++ L ".")
              (L "Pain Literature Weekly — " ++ mindate ++ L " to " ++ maxdate)].
Proof.
  intros H. unfold run, main.
  set (term := pubmed_query JOURNALS KEYWORDS ADD_HUMANS_FILTER) in *.
  unfold bind, esearch, emit, ret. rewrite H. simpl.
  destruct (truthy base_url); simpl; unfold build_html, render; simpl;
    rewrite <- ?app_assoc; simpl; rewrite ?app_nil_r; reflexivity.
Qed.

Lemma run_no_ids_witness :
  idx_search empty_index (pubmed_query JOURNALS KEYWORDS ADD_HUMANS_FILTER)
    (L "2024/03/08") (L "2024/03/15") = [] /\
  run empty_index [] (L "2024/03/08") (L "2024/03/15") =
    [ESearch (pubmed_query JOURNALS KEYWORDS ADD_HUMANS_FILTER) (L "2024/03/08") (L "2024/03/15");
     ESend (L "<p>No new items between 2024/03/08 and 2024/03/15.</p>")
           (L "No new items between 2024/03/08 and 2024/03/15.")
           (L "Pain Literature Weekly — 2024/03/08 to 2024/03/15")].
Proof.
  split; [reflexivity|].
  apply (run_no_ids empty_index [] (L "2024/03/08") (L "2024/03/15")). reflexivity.
Defined.

(** C8 (counterexample): with no candidate ids the dispatch stage is still
    invoked, with non-empty bodies. *)
Lemma run_no_ids_dispatches_cex :
  exists h t s,
    ESend h t s ∈ run empty_index [] (L "2024/03/08") (L "2024/03/15")
    /\ h <> [] /\ t <> [].
Proof.
  exists (L "<p>No new items between 2024/03/08 and 2024/03/15.</p>"),
         (L "No new items between 2024/03/08 and 2024/03/15."),
         (L "Pain Literature Weekly — 2024/03/08 to 2024/03/15").
  split; [|split; discriminate].
  apply list_elem_of_In. vm_compute. right. left. reflexivity.
Qed.

Ltac escape_ok_pieces :=
  repeat (apply Forall_app; split);
  repeat constructor; simpl; intuition congruence.

Lemma html_row_escape_ok (mm : option meta_map) (base_url : str) (it : item) :
  Forall escape_ok (html_row mm base_url it).
Proof.
  unfold html_row.
  destruct (truthy (it_doi it)), (truthy base_url), mm as [m|];
    simpl; try destruct (build_snippet _) as [lab [snip|]];
    try destruct (truthy snip); escape_ok_pieces.
Qed.

Lemma page_row_escape_ok (mm : meta_map) (it : item) :
  Forall escape_ok (page_row mm it).
Proof.
  unfold page_row. destruct (truthy (it_doi it)); escape_ok_pieces.
Qed.

Lemma Forall_concat_map {A B} (P : B -> Prop) (f : A -> list B) (l : list A) :
  (forall x, Forall P (f x)) -> Forall P (concat (map f l)).
Proof.
  intros H. induction l as [|x l IH]; simpl; [constructor|].
  apply Forall_app; split; auto.
Qed.

Lemma join_frags_Forall (P : frag -> Prop) (sep : list frag) (rows : list (list frag)) :
  Forall P sep -> Forall (Forall P) rows -> Forall P (join_frags sep rows).
Proof.
  intros Hs Hr. induction Hr as [|r rs Hr Hrs IH]; simpl; [constructor|].
  destruct rs; [done|]. repeat (apply Forall_app; split); auto.
Qed.

Lemma build_html_escape_ok items mindate maxdate mm base_url :
  Forall escape_ok (build_html_frags items mindate maxdate mm base_url).
Proof.
  unfold build_html_frags. destruct items as [|it its].
  - escape_ok_pieces.
  - apply Forall_app; split; [escape_ok_pieces|].
    apply Forall_app; split; [|escape_ok_pieces].
    apply Forall_concat_map. apply html_row_escape_ok.
Qed.

Lemma build_abstracts_page_escape_ok items mm mindate maxdate :
  Forall escape_ok (build_abstracts_page_frags items mm mindate maxdate).
Proof.
  unfold build_abstracts_page_frags.
  apply Forall_app; split; [escape_ok_pieces|].
  apply Forall_app; split.
  - destruct (map (page_row mm) items) as [|r rs] eqn:E.
    + escape_ok_pieces.
    + rewrite <- E. apply join_frags_Forall; [escape_ok_pieces|].
      apply Forall_forall. intros x Hx. apply list_elem_of_In, in_map_iff in Hx.
      destruct Hx as (it & <- & _). apply page_row_escape_ok.
  - escape_ok_pieces.
Qed.

(** C1 (counterexample): on the abstracts page the PMID is embedded in the
    [id] attribute (and in the link) without escaping; a PMID holding
    markup reaches the page verbatim. *)
Lemma abstracts_page_pmid_unescaped_cex :
  let it := mkItem (L "<i>1") (L "T") (L "J") (L "2024/03/10") [] (L "u") in
  Emb FPmid InAttr false (L "<i>1") ∈ build_abstracts_page_frags [it] ∅ (L "a") (L "b")
  /\ external FPmid = true
  /\ str_contains (Q "<section id=`<i>1`") (build_abstracts_page [it] ∅ (L "a") (L "b")) = true.
Proof.
  split; [|split; [reflexivity|vm_compute; reflexivity]].
  apply list_elem_of_In. simpl. tauto.
Qed.

Lemma page_row_doi_escaped (mm : meta_map) (it : item) :
  Forall doi_escaped (page_row mm it).
Proof.
  unfold page_row. destruct (truthy (it_doi it));
    repeat (apply Forall_app; split); repeat constructor.
Qed.

Lemma build_abstracts_page_doi_escaped items mm mindate maxdate :
  Forall doi_escaped (build_abstracts_page_frags items mm mindate maxdate).
Proof.
  unfold build_abstracts_page_frags.
  apply Forall_app; split; [repeat constructor|].
  apply Forall_app; split; [|repeat constructor].
  destruct (map (page_row mm) items) as [|r rs] eqn:E; [repeat constructor|].
  rewrite <- E. apply join_frags_Forall; [repeat constructor|].
  apply Forall_forall. intros x Hx. apply list_elem_of_In, in_map_iff in Hx.
  destruct Hx as (it & <- & _). apply page_row_doi_escaped.
Qed.

(** C1 (amended): in the HTML body and the abstracts page, every
    interpolated title, journal, date, abstract and snippet text goes
    through [html.escape], and so does the DOI wherever it is link text; on
    the abstracts page the DOI is escaped also inside the [href].  The PMID
    (in text, [href] and [id]) and the PubMed URL built from it are
    embedded unescaped. *)
Theorem html_fields_escaped (items : list item) (mindate maxdate : str)
    (mm : option meta_map) (mm' : meta_map) (base_url : str)
    (f : field) (p : position) (esc : bool) (s : str) :
  (Emb f p esc s ∈ build_html_frags items mindate maxdate mm base_url
                   ++ build_abstracts_page_frags items mm' mindate maxdate ->
   ((f = FTitle \/ f = FJournal \/ f = FDate \/ f = FAbstract \/ f = FSnippet
     \/ (f = FDoi /\ p = InText)) -> esc = true)
   /\ (f = FPmid \/ f = FUrl -> esc = false))
  /\ (Emb f p esc s ∈ build_abstracts_page_frags items mm' mindate maxdate ->
      f = FDoi -> esc = true).
Proof.
  split.
  - intros Hin.
    assert (Forall escape_ok (build_html_frags items mindate maxdate mm base_url
                              ++ build_abstracts_page_frags items mm' mindate maxdate)) as HF.
    { apply Forall_app; split;
        [apply build_html_escape_ok | apply build_abstracts_page_escape_ok]. }
    rewrite Forall_forall in HF.
    exact (HF _ Hin).
  - intros Hin ->.
    pose proof (build_abstracts_page_doi_escaped items mm' mindate maxdate) as HF.
    rewrite Forall_forall in HF. exact (HF _ Hin).
Qed.

Lemma html_fields_escaped_witness :
  let it := mkItem (L "1") (L "T") (L "J") (L "2024/03/10") (L "10.1/x") (L "u") in
  Emb FDoi InAttr true (L "10.1/x")
    ∈ build_html_frags [it] (L "a") (L "b") None []
      ++ build_abstracts_page_frags [it] ∅ (L "a") (L "b")
  /\ Emb FDoi InAttr true (L "10.1/x") ∈ build_abstracts_page_frags [it] ∅ (L "a") (L "b")
  /\ (((FDoi = FTitle \/ FDoi = FJournal \/ FDoi = FDate \/ FDoi = FAbstract
        \/ FDoi = FSnippet \/ (FDoi = FDoi /\ InAttr = InText)) -> true = true)
      /\ (FDoi = FPmid \/ FDoi = FUrl -> true = false))
  /\ (FDoi = FDoi -> true = true).
Proof.
  intros it.
  assert (H2 : Emb FDoi InAttr true (L "10.1/x")
                 ∈ build_abstracts_page_frags [it] ∅ (L "a") (L "b")).
  { apply list_elem_of_In. simpl. tauto. }
  assert (H1 : Emb FDoi InAttr true (L "10.1/x")
    ∈ build_html_frags [it] (L "a") (L "b") None []
      ++ build_abstracts_page_frags [it] ∅ (L "a") (L "b")).
  { apply elem_of_app. by right. }
  split; [exact H1|]. split; [exact H2|].
  pose proof (html_fields_escaped [it] (L "a") (L "b") None ∅ [] FDoi InAttr true (L "10.1/x"))
    as [Ha Hb].
  split; [exact (Ha H1)|exact (Hb H2)].
Defined.

(** * Deduplication and ranking *)

Ltac date_cases :=
  intros;
  repeat match goal with
  | a : date |- _ => let y := fresh "y" in let m := fresh "m" in let d := fresh "d" in
                     destruct a as [[y m] d]
  end;
  unfold date_leb, date_ltb in *;
  repeat match goal with
  | |- context [Z.ltb ?x ?y] => destruct (Z.ltb_spec x y)
  | |- context [Z.eqb ?x ?y] => destruct (Z.eqb_spec x y)
  | H : context [Z.ltb ?x ?y] |- _ => destruct (Z.ltb_spec x y)
  | H : context [Z.eqb ?x ?y] |- _ => destruct (Z.eqb_spec x y)
  end; simpl in *; try congruence; try (repeat f_equal; lia); lia.

Lemma date_leb_refl (a : date) : date_leb a a = true.
Proof. date_cases. Qed.

Lemma date_leb_trans (a b c : date) :
  date_leb a b = true -> date_leb b c = true -> date_leb a c = true.
Proof. date_cases. Qed.

Lemma date_leb_total (a b : date) : date_leb a b = false -> date_leb b a = true.
Proof. date_cases. Qed.

Lemma date_leb_antisym (a b : date) :
  date_leb a b = true -> date_leb b a = true -> a = b.
Proof. date_cases. Qed.

Section Sorting.
Variable key : item -> date.

Lemma insert_desc_split (x : item) (l : list item) :
  exists pre post, l = pre ++ post /\ insert_desc key x l = pre ++ x :: post
    /\ Forall (fun y => date_leb (key y) (key x) = false) pre.
Proof.
  induction l as [|y l IH]; simpl.
  - exists [], []. auto.
  - destruct (date_leb (key y) (key x)) eqn:E.
    + exists [], (y :: l). auto.
    + destruct IH as (pre & post & -> & -> & HF).
      exists (y :: pre), post. auto.
Qed.

Lemma sort_desc_perm (l : list item) : sort_desc key l ≡ₚ l.
Proof.
  induction l as [|x l IH]; simpl; [done|].
  destruct (insert_desc_split x (sort_desc key l)) as (pre & post & E & -> & _).
  rewrite <- IH, E. symmetry. apply Permutation_middle.
Qed.

Lemma insert_desc_sorted (x : item) (l : list item) :
  StronglySorted (fun a b => date_leb (key b) (key a) = true) l ->
  StronglySorted (fun a b => date_leb (key b) (key a) = true) (insert_desc key x l).
Proof.
  induction l as [|y l IH]; simpl; intros Hs.
  - repeat constructor.
  - apply StronglySorted_inv in Hs as [Hs Hy].
    destruct (date_leb (key y) (key x)) eqn:E.
    + constructor; [by constructor|].
      constructor; [done|].
      eapply Forall_impl; [exact Hy|]. intros z Hz. exact (date_leb_trans _ _ _ Hz E).
    + constructor; [auto|].
      destruct (insert_desc_split x l) as (pre & post & El & -> & _).
      subst l. apply Forall_app in Hy as [Hy1 Hy2].
      apply Forall_app; split; [done|]. constructor; [|done].
      apply date_leb_total. done.
Qed.

Lemma sort_desc_sorted (l : list item) :
  StronglySorted (fun a b => date_leb (key b) (key a) = true) (sort_desc key l).
Proof.
  induction l as [|x l IH]; simpl; [constructor|]. by apply insert_desc_sorted.
Qed.

Lemma sort_desc_stable (k : date) (l : list item) :
  List.filter (fun it => bool_decide (key it = k)) (sort_desc key l)
  = List.filter (fun it => bool_decide (key it = k)) l.
Proof.
  induction l as [|x l IH]; simpl; [done|].
  destruct (insert_desc_split x (sort_desc key l)) as (pre & post & E & -> & HF).
  rewrite <- IH, E, !List.filter_app. simpl.
  case_bool_decide as Hx; [|done].
  assert (List.filter (fun it => bool_decide (key it = k)) pre = []) as ->.
  { clear E IH. induction HF as [|y pre Hy HF' IHp]; simpl; [done|].
    destruct (bool_decide_reflect (key y = k)) as [Hk|Hk]; [|done].
    subst k. rewrite Hk, date_leb_refl in Hy. discriminate. }
  done.
Qed.

End Sorting.

Lemma dedup_go_spec (d : list (dkey * item)) (items : list item) :
  exists l, dedup_go d items = d ++ l
    /\ (map snd l) `sublist_of` items
    /\ Forall (fun '(k, x) => k = dedup_key x /\ (k ∉ map fst d)
                 /\ (exists pre post, items = pre ++ x :: post
                      /\ Forall (fun y => dedup_key y <> k) pre)) l
    /\ NoDup (map fst l)
    /\ (forall it, it ∈ items -> dedup_key it ∈ map fst d ++ map fst l).
Proof.
  revert d. induction items as [|it items IH]; intros d; simpl.
  - exists []. rewrite app_nil_r. repeat split; try constructor.
    intros it Hit. inversion Hit.
  - destruct (decide (dedup_key it ∈ map fst d)) as [Hin|Hnin].
    + destruct (IH d) as (l & -> & Hsub & HF & Hnd & Hcov).
      exists l. repeat split; auto.
      * by apply sublist_cons.
      * eapply Forall_impl; [exact HF|]. intros [k x] (Hk & Hkd & pre & post & Ei & Hpre).
        repeat split; auto. exists (it :: pre), post. split; [by rewrite Ei|].
        constructor; [|done]. intros Heq. apply Hkd. by rewrite <- Heq.
      * intros y Hy. apply elem_of_cons in Hy as [->|Hy].
        -- apply elem_of_app. by left.
        -- by apply Hcov.
    + destruct (IH (d ++ [(dedup_key it, it)])) as (l & -> & Hsub & HF & Hnd & Hcov).
      exists ((dedup_key it, it) :: l). rewrite <- app_assoc. repeat split; auto.
      * simpl. by apply sublist_skip.
      * constructor.
        -- repeat split; auto. exists [], items. auto.
        -- eapply Forall_impl; [exact HF|]. intros [k x] (Hk & Hkd & pre & post & Ei & Hpre).
           rewrite map_app in Hkd. simpl in Hkd.
           repeat split; auto.
           ++ intros Hc. apply Hkd, elem_of_app. by left.
           ++ exists (it :: pre), post. split; [by rewrite Ei|].
              constructor; [|done]. intros Heq. apply Hkd, elem_of_app.
              right. rewrite Heq. by left.
      * simpl. constructor; [|done]. intros Hk.
        apply list_elem_of_In, in_map_iff in Hk as ([k x] & Ek & Hx).
        simpl in Ek. subst k.
        rewrite Forall_forall in HF. apply list_elem_of_In in Hx.
        destruct (HF _ Hx) as (_ & Hkd & _).
        apply Hkd. rewrite map_app. apply elem_of_app. right. by left.
      * intros y Hy. apply elem_of_cons in Hy as [->|Hy].
        -- simpl. apply elem_of_app. right. by left.
        -- specialize (Hcov y Hy). rewrite map_app in Hcov. simpl in Hcov.
           rewrite <- app_assoc in Hcov. simpl in Hcov. exact Hcov.
Qed.

Lemma dedup_go_keys (l : list (dkey * item)) :
  Forall (fun p => fst p = dedup_key (snd p)) l ->
  map fst l = map dedup_key (map snd l).
Proof.
  induction 1 as [|[k x] l Hk _ IH]; simpl in *; [done|]. by rewrite IH, Hk.
Qed.

Lemma in_range_dval (lo hi : Z) (c : ascii) :
  in_range lo hi (digit c) = true -> (lo <= dval c)%Z.
Proof.
  unfold in_range, dval. destruct (digit c); [|discriminate].
  intros H. apply andb_prop in H as [H _]. apply Z.leb_le in H. lia.
Qed.

Lemma dval_nonneg (c : ascii) : (0 <= dval c)%Z.
Proof. unfold dval, digit. case_match; [|lia]. destruct (_ && _); simplify_eq; lia. Qed.

Lemma parse_month_pos (s r : str) (v : Z) : parse_month s = Some (v, r) -> (1 <= v)%Z.
Proof.
  unfold parse_month. intros H.
  repeat (case_match; simplify_eq/=);
  repeat match goal with
         | H : _ && _ = true |- _ => apply andb_prop in H as [? ?]
         end;
  repeat match goal with
         | H : in_range _ _ _ = true |- _ => apply in_range_dval in H
         end;
  try pose proof (dval_nonneg c0); lia.
Qed.

Lemma parse_day_pos (s r : str) (v : Z) : parse_day s = Some (v, r) -> (1 <= v)%Z.
Proof.
  unfold parse_day. intros H.
  repeat (case_match; simplify_eq/=);
  repeat match goal with
         | H : _ && _ = true |- _ => apply andb_prop in H as [? ?]
         end;
  repeat match goal with
         | H : in_range _ _ _ = true |- _ => apply in_range_dval in H
         end;
  repeat match goal with
         | c : ascii |- _ =>
             lazymatch goal with
             | _ : (0 <= dval c)%Z |- _ => fail
             | _ => pose proof (dval_nonneg c)
             end
         end; lia.
Qed.

Lemma strptime_ymd_ge_min (s : str) (d : date) :
  strptime_ymd s = Some d -> date_leb DATETIME_MIN d = true.
Proof.
  unfold strptime_ymd. intros H.
  repeat (case_match; simplify_eq/=); try discriminate.
  match goal with
  | H : (1 <=? ?y)%Z && _ = true |- _ => apply andb_prop in H as [Hy _]; apply Z.leb_le in Hy
  end.
  repeat match goal with
         | H : parse_month _ = Some _ |- _ => apply parse_month_pos in H
         | H : parse_day _ = Some _ |- _ => apply parse_day_pos in H
         end.
  unfold DATETIME_MIN. date_cases.
Qed.

Lemma StronglySorted_suffix {A} (R : A -> A -> Prop) (pre l : list A) :
  StronglySorted R (pre ++ l) -> StronglySorted R l.
Proof.
  induction pre as [|x pre IH]; simpl; [done|].
  intros H. apply StronglySorted_inv in H as [H _]. auto.
Qed.

(** C4: deduplication keys records by [("doi", doi.lower())] when the DOI
    is non-empty and by [("pmid", pid)] otherwise, and keeps the first
    record seen per key, in response order: the kept records are a
    subsequence of the input with pairwise distinct keys, every key of the
    input is kept, and each kept record is the first of the input with its
    key.  DOIs that differ only in letter case give the same key, and the
    ranked list returned by [esummary] still has pairwise distinct keys. *)
Theorem dedup_first_seen (items : list item) :
  NoDup (map dedup_key (dedup items))
  /\ (dedup items) `sublist_of` items
  /\ (forall it, it ∈ items ->
        exists it', it' ∈ dedup items /\ dedup_key it' = dedup_key it)
  /\ (forall x, x ∈ dedup items ->
        exists pre post, items = pre ++ x :: post
          /\ Forall (fun y => dedup_key y <> dedup_key x) pre)
  /\ (forall a b : item, truthy (it_doi a) = true -> truthy (it_doi b) = true ->
        py_lower (it_doi a) = py_lower (it_doi b) -> dedup_key a = dedup_key b)
  /\ (forall result, NoDup (map dedup_key (esummary_result result))).
Proof.
  assert (Hd : forall items, NoDup (map dedup_key (dedup items))).
  { intros its. destruct (dedup_go_spec [] its) as (l & E & _ & HF & Hnd & _).
    unfold dedup. rewrite E. simpl.
    rewrite <- dedup_go_keys; [done|].
    eapply Forall_impl; [exact HF|]. intros [k x] (Hk & _). exact Hk. }
  destruct (dedup_go_spec [] items) as (l & E & Hsub & HF & Hnd & Hcov).
  unfold dedup. rewrite E. simpl.
  split; [|split; [|split; [|split; [|split]]]].
  - pose proof (Hd items) as H. unfold dedup in H. rewrite E in H. exact H.
  - exact Hsub.
  - intros it Hit. specialize (Hcov it Hit). simpl in Hcov.
    apply list_elem_of_In, in_map_iff in Hcov as ([k x] & Ek & Hx). simpl in Ek.
    exists x. split.
    + apply list_elem_of_In, in_map_iff. exists (k, x). auto.
    + rewrite Forall_forall in HF. apply list_elem_of_In in Hx.
      destruct (HF _ Hx) as (Hk & _). congruence.
  - intros x Hx. apply list_elem_of_In, in_map_iff in Hx as ([k x'] & Ex & Hx).
    simpl in Ex. subst x'.
    rewrite Forall_forall in HF. apply list_elem_of_In in Hx.
    destruct (HF _ Hx) as (Hk & _ & pre & post & Ei & Hpre).
    exists pre, post. split; [done|]. by rewrite <- Hk.
  - intros a b Ha Hb Hab. unfold dedup_key. by rewrite Ha, Hb, Hab.
  - intros result. unfold esummary_result, sort_by_date.
    rewrite (Permutation_map dedup_key (sort_desc_perm _ (dedup (summary_items result)))).
    apply Hd.
Qed.

(** Two records whose DOIs differ only in case: the first one is kept. *)
Example dedup_doi_case_ex :
  let a := mkItem (L "1") (L "A") (L "J") (L "2024/03/01") (L "10.1000/ABC") (L "u1") in
  let b := mkItem (L "2") (L "B") (L "J") (L "2024/03/02") (L "10.1000/abc") (L "u2") in
  dedup [a; b] = [a].
Proof. reflexivity. Qed.

(** C5 (counterexample): an unparsable date gets the key [datetime.min],
    which is also the parsed value of ["0001/01/01"]; the two tie and the
    stable sort leaves the unparsable record in front of the parsable one. *)
Lemma sort_unparsable_ties_year_one_cex :
  let a := mkItem (L "1") (L "A") (L "J") (L "n/a") [] (L "u1") in
  let b := mkItem (L "2") (L "B") (L "J") (L "0001/01/01") [] (L "u2") in
  sort_by_date [a; b] = [a; b]
  /\ strptime_ymd (it_date a) = None
  /\ strptime_ymd (it_date b) = Some (1, 1, 1)%Z.
Proof. split; [|split]; reflexivity. Qed.

(** C5 (amended): ranking is a stable sort by the parsed date, newest
    first, defined on every string; an unparsable date takes the key
    [datetime.min] (0001/01/01), so every record after an unparsable one is
    unparsable too or dated 0001/01/01, i.e. unparsable dates sort after all
    dates later than 0001/01/01, and records with equal keys keep their
    input order. *)
Theorem sort_by_date_spec (items : list item) :
  let key := fun it => parse_sortdate (it_date it) in
  sort_by_date items ≡ₚ items
  /\ StronglySorted (fun a b => date_leb (key b) (key a) = true) (sort_by_date items)
  /\ (forall k, List.filter (fun it => bool_decide (key it = k)) (sort_by_date items)
                = List.filter (fun it => bool_decide (key it = k)) items)
  /\ (forall pre x post, sort_by_date items = pre ++ x :: post ->
        strptime_ymd (it_date x) = None ->
        forall y, y ∈ post ->
          strptime_ymd (it_date y) = None \/ strptime_ymd (it_date y) = Some DATETIME_MIN).
Proof.
  cbv zeta. unfold sort_by_date.
  split; [apply sort_desc_perm|]. split; [apply sort_desc_sorted|].
  split; [intros k; apply sort_desc_stable|].
  intros pre x post E Hx y Hy.
  pose proof (sort_desc_sorted (fun it => parse_sortdate (it_date it)) items) as Hs.
  rewrite E in Hs.
  apply StronglySorted_suffix in Hs.
  apply StronglySorted_inv in Hs as [_ Hxp].
  rewrite Forall_forall in Hxp. specialize (Hxp y Hy). simpl in Hxp.
  unfold parse_sortdate in Hxp. rewrite Hx in Hxp.
  destruct (strptime_ymd (it_date y)) as [d|] eqn:Ed; [right|by left].
  f_equal. apply date_leb_antisym; [exact Hxp|].
  by apply (strptime_ymd_ge_min (it_date y)).
Qed.

(** The example of the spec, with the dates written as the code parses them. *)
Example sort_by_date_ex :
  let a := mkItem (L "1") (L "A") (L "J") (L "2024/03/01") [] (L "u1") in
  let b := mkItem (L "2") (L "B") (L "J") (L "2024/03/10") [] (L "u2") in
  let c := mkItem (L "3") (L "C") (L "J") (L "unknown") [] (L "u3") in
  sort_by_date [a; b; c] = [b; a; c].
Proof. reflexivity. Qed.

(** * Words, stripping and sentence splitting *)

Lemma py_split_nonempty (s : str) : starts_ns s = true -> py_split s <> [].
Proof.
  destruct s as [|c s]; simpl; [discriminate|].
  intros Hc. apply negb_true_iff in Hc. rewrite Hc.
  destruct (starts_ns s); [destruct (py_split s)|]; discriminate.
Qed.

(** How a non-space character in front of a string changes its words;
    the words only depend on the rest through its words and whether it
    starts with a non-space. *)
Lemma py_split_cons_compat (c : ascii) (p s : str) (rest : list str) :
  starts_ns p = starts_ns s -> py_split p ++ rest = py_split s ->
  py_split (c :: p) ++ rest = py_split (c :: s).
Proof.
  intros Hns Hw. simpl. destruct (is_space c); [done|].
  rewrite <- Hns. destruct (starts_ns p) eqn:Hp.
  - pose proof (py_split_nonempty p Hp) as Hne.
    rewrite <- Hw. destruct (py_split p); [done|]. reflexivity.
  - simpl. by rewrite Hw.
Qed.

Lemma starts_ns_app (x y : str) : x <> [] -> starts_ns (x ++ y) = starts_ns x.
Proof. destruct x; [done|]. reflexivity. Qed.

Lemma py_split_app (a b : str) :
  starts_ns b = false -> py_split (a ++ b) = py_split a ++ py_split b.
Proof.
  intros Hb. induction a as [|c a IH]; [done|].
  assert (starts_ns (a ++ b) = starts_ns a \/ a = []) as Hs.
  { destruct a; [by right|left; reflexivity]. }
  simpl. destruct (is_space c); [done|].
  destruct Hs as [Hs | ->].
  - rewrite Hs, IH. destruct (starts_ns a) eqn:Ha; [|done].
    pose proof (py_split_nonempty a Ha). destruct (py_split a); [done|]. reflexivity.
  - simpl. rewrite Hb. reflexivity.
Qed.

Lemma py_split_space_cons (c : ascii) (s : str) :
  is_space c = true -> py_split (c :: s) = py_split s.
Proof. simpl. intros ->. reflexivity. Qed.

Lemma py_split_all_space (s : str) : Forall (fun c => is_space c = true) s -> py_split s = [].
Proof. induction 1; [done|]. rewrite py_split_space_cons; done. Qed.

Lemma drop_ws_prefix (s : str) :
  exists sp, s = sp ++ drop_ws s /\ Forall (fun c => is_space c = true) sp.
Proof.
  induction s as [|c s IH]; simpl; [by exists []|].
  destruct (is_space c) eqn:Hc.
  - destruct IH as (sp & E & Hsp). exists (c :: sp). simpl. rewrite <- E. auto.
  - by exists [].
Qed.

Lemma drop_ws_starts (s : str) : drop_ws s = [] \/ starts_ns (drop_ws s) = true.
Proof.
  induction s as [|c s IH]; simpl; [by left|].
  destruct (is_space c) eqn:Hc; [done|]. right. simpl. by rewrite Hc.
Qed.

Lemma starts_ns_all_space (sp : str) :
  Forall (fun c => is_space c = true) sp -> starts_ns sp = false.
Proof. destruct 1; [done|]. simpl. by rewrite H. Qed.

Lemma py_split_drop_ws (s : str) : py_split (drop_ws s) = py_split s.
Proof.
  destruct (drop_ws_prefix s) as (sp & E & Hsp).
  transitivity (py_split (sp ++ drop_ws s)); [|by rewrite <- E].
  clear E. induction Hsp as [|x l Hx _ IH]; [done|]. simpl. rewrite Hx. exact IH.
Qed.

Lemma py_split_strip (s : str) : py_split (py_strip s) = py_split s.
Proof.
  unfold py_strip. rewrite <- (py_split_drop_ws s).
  set (w := drop_ws s).
  destruct (drop_ws_prefix (rev w)) as (sp & E & Hsp).
  assert (w = rev (drop_ws (rev w)) ++ rev sp) as Ew.
  { rewrite <- rev_app_distr, <- E. by rewrite rev_involutive. }
  rewrite Ew at 2. rewrite py_split_app.
  - rewrite (py_split_all_space (rev sp)), app_nil_r; [done|].
    by apply Forall_rev.
  - apply starts_ns_all_space. by apply Forall_rev.
Qed.

Lemma py_split_wordlike (s : str) : Forall wordlike (py_split s).
Proof.
  induction s as [|c s IH]; simpl; [constructor|].
  destruct (is_space c) eqn:Hc; [done|].
  destruct (starts_ns s).
  - destruct (py_split s) as [|w ws]; [repeat constructor; done|].
    inversion IH as [|? ? [Hw Hws] Hrest]; subst.
    constructor; [|done]. split; [discriminate|]. by constructor.
  - constructor; [|done]. split; [discriminate|]. by repeat constructor.
Qed.

Lemma py_split_word (w : str) : wordlike w -> py_split w = [w].
Proof.
  intros [Hne Hw]. induction Hw as [|c w Hc Hw IH]; [done|].
  simpl. rewrite Hc. destruct w as [|d w]; [done|].
  inversion Hw as [|? ? Hd]; subst. simpl. rewrite Hd. simpl.
  simpl in IH. rewrite Hd in IH. rewrite IH by discriminate. reflexivity.
Qed.

Lemma py_split_join (ws : list str) :
  py_split (join (L " ") ws) = concat (map py_split ws).
Proof.
  induction ws as [|w [|w' ws] IH]; simpl; [done|by rewrite app_nil_r|].
  rewrite py_split_app by reflexivity.
  rewrite py_split_space_cons by reflexivity. simpl in IH. by rewrite IH.
Qed.

Lemma py_split_join_words (ws : list str) :
  Forall wordlike ws -> py_split (join (L " ") ws) = ws.
Proof.
  intros H. rewrite py_split_join. induction H as [|w ws Hw _ IH]; [done|].
  simpl. by rewrite py_split_word, IH.
Qed.

(** Words are preserved across the sentence split: the parts, re-split into
    words, give the words of the whole string. *)
Lemma sent_split_words (st : scan_state) (s : str) :
  exists p ps, sent_split st s = p :: ps
    /\ py_split p ++ concat (map py_split ps) = py_split s
    /\ (st = InSep \/ starts_ns p = starts_ns s).
Proof.
  revert st. induction s as [|c s IH]; intros st.
  - exists [], []. simpl. auto.
  - assert (Hcons : forall st', st' <> InSep ->
              exists p ps, cons_head c (sent_split st' s) = p :: ps
                /\ py_split p ++ concat (map py_split ps) = py_split (c :: s)
                /\ starts_ns p = starts_ns (c :: s)).
    { intros st' Hst'. destruct (IH st') as (p & ps & -> & Hw & [?|Hns]); [done|].
      exists (c :: p), ps. simpl cons_head. split; [done|]. split.
      - by apply py_split_cons_compat.
      - reflexivity. }
    assert (Hnext : next_state c <> InSep).
    { unfold next_state. by destruct (is_term c). }
    destruct st; cbn [sent_split].
    + destruct (Hcons _ Hnext) as (p & ps & E & Hw & Hns). exists p, ps. auto.
    + destruct (is_space c) eqn:Hc.
      * destruct (IH InSep) as (p & ps & E & Hw & _).
        exists [], (p :: ps). rewrite E. split; [done|].
        rewrite py_split_space_cons by done. simpl. rewrite Hw.
        split; [done|]. right. simpl. by rewrite Hc.
      * destruct (Hcons _ Hnext) as (p & ps & E & Hw & Hns). exists p, ps. auto.
    + destruct (is_space c) eqn:Hc.
      * destruct (IH InSep) as (p & ps & E & Hw & _).
        exists p, ps. rewrite py_split_space_cons by done. auto.
      * destruct (Hcons _ Hnext) as (p & ps & E & Hw & Hns). exists p, ps. auto.
Qed.

Lemma concat_split_filter (l : list str) :
  concat (map py_split (List.filter truthy l)) = concat (map py_split l).
Proof. induction l as [|[|c w] l IH]; simpl; [done|exact IH|by rewrite IH]. Qed.

Lemma segment_refl {A} (l : list A) : segment l l.
Proof. exists [], []. by rewrite app_nil_r. Qed.

Lemma segment_trans {A} (a b c : list A) : segment a b -> segment b c -> segment a c.
Proof.
  intros (p1 & q1 & ->) (p2 & q2 & ->).
  exists (p2 ++ p1), (q1 ++ q2). by rewrite <- !app_assoc.
Qed.

(** The words of [last_sentences t n] are a contiguous run of the words of [t]. *)
Lemma last_sentences_segment (t : str) (n : nat) :
  segment (py_split (last_sentences t n)) (py_split t).
Proof.
  unfold last_sentences, re_split_sentences.
  destruct (sent_split_words Plain (py_strip t)) as (p & ps & E & Hw & _).
  rewrite E.
  assert (Hall : concat (map py_split (List.filter truthy (p :: ps))) = py_split t).
  { rewrite concat_split_filter. simpl. rewrite Hw. apply py_split_strip. }
  remember (List.filter truthy (p :: ps)) as l eqn:F. clear F.
  destruct l as [|q qs].
  - exists (py_split t), []. simpl. by rewrite app_nil_r.
  - rewrite py_split_strip, py_split_join. unfold last_n.
    destruct n as [|n']; [rewrite Hall; apply segment_refl|].
    exists (concat (map py_split (firstn (length (q :: qs) - S n') (q :: qs)))), [].
    rewrite app_nil_r, <- Hall, <- concat_app, <- map_app, firstn_skipn. done.
Qed.

Lemma trim_words_cases (text : str) (n : nat) :
  (length (py_split text) <= n /\ trim_words text n = text) \/
  (n < length (py_split text)
   /\ trim_words text n = join (L " ") (firstn n (py_split text)) ++ ELLIPSIS
   /\ py_split (join (L " ") (firstn n (py_split text))) = firstn n (py_split text)
   /\ length (firstn n (py_split text)) = n).
Proof.
  unfold trim_words. cbv zeta.
  destruct (Nat.leb_spec (length (py_split text)) n) as [Hle|Hlt]; [by left|right].
  split; [done|]. split; [done|]. split.
  - apply py_split_join_words. apply Forall_take, py_split_wordlike.
  - apply firstn_length_le. lia.
Qed.

Lemma trim_words_segment (text : str) (n : nat) :
  exists ws, segment ws (py_split text)
    /\ (py_split (trim_words text n) = ws \/ trim_words text n = join (L " ") ws ++ ELLIPSIS).
Proof.
  destruct (trim_words_cases text n) as [[_ ->]|(_ & -> & _ & _)].
  - exists (py_split text). split; [apply segment_refl|by left].
  - exists (firstn n (py_split text)). split; [|by right].
    exists [], (skipn n (py_split text)). simpl. by rewrite firstn_skipn.
Qed.

Lemma opt_str_truthy (o : option str) :
  truthy (py_strip (opt_str o)) = true -> exists src, o = Some src /\ opt_str o = src.
Proof.
  intros H. destruct o as [[|x c]|]; try (vm_compute in H; discriminate).
  by exists (x :: c).
Qed.

Lemma drop_ws_ns (s : str) : starts_ns s = true -> drop_ws s = s.
Proof.
  destruct s as [|c s]; simpl; [discriminate|].
  intros H. apply negb_true_iff in H. by rewrite H.
Qed.

Lemma strip_tight (s : str) : truthy (py_strip s) = true -> tight (py_strip s).
Proof.
  unfold py_strip. remember (drop_ws s) as w eqn:Hw0. intros H.
  destruct (drop_ws_prefix (rev w)) as (sp & E & Hsp).
  assert (w = rev (drop_ws (rev w)) ++ rev sp) as Ew.
  { rewrite <- rev_app_distr, <- E. by rewrite rev_involutive. }
  split.
  - rewrite <- (starts_ns_app _ (rev sp)).
    + rewrite <- Ew. destruct (drop_ws_starts s) as [Hd|Hd]; rewrite <- Hw0 in Hd; [|exact Hd].
      subst w. rewrite Hd in H. discriminate.
    + intros Hn. rewrite Hn in H. discriminate.
  - rewrite rev_involutive.
    destruct (drop_ws_starts (rev w)) as [Hd|Hd]; [|exact Hd].
    rewrite Hd in H. discriminate.
Qed.

Lemma strip_of_tight (s : str) : tight s -> py_strip s = s.
Proof.
  intros [H1 H2]. unfold py_strip.
  rewrite (drop_ws_ns s H1), (drop_ws_ns _ H2). apply rev_involutive.
Qed.

Lemma join_tight (l : list str) : l <> [] -> Forall tight l -> tight (join (L " ") l).
Proof.
  induction l as [|w l IH]; [done|]. intros _ HF.
  inversion HF as [|? ? Hw Hl]; subst.
  destruct l as [|w' l]; [exact Hw|].
  change (join (L " ") (w :: w' :: l)) with (w ++ L " " ++ join (L " ") (w' :: l)).
  specialize (IH ltac:(discriminate) Hl).
  destruct Hw as [Hw1 Hw2], IH as [I1 I2]. split.
  - rewrite starts_ns_app; [exact Hw1|]. intros ->. discriminate.
  - rewrite !rev_app_distr, <- app_assoc, starts_ns_app; [exact I2|].
    intros Hn. rewrite Hn in I2. discriminate.
Qed.

Lemma join_infix (l : list str) (x : str) :
  In x l -> exists pre post, join (L " ") l = pre ++ x ++ post.
Proof.
  induction l as [|w l IH]; [done|]. intros [->|Hin].
  - destruct l as [|w' l].
    + exists [], []. simpl. by rewrite app_nil_r.
    + exists [], (L " " ++ join (L " ") (w' :: l)). reflexivity.
  - destruct (IH Hin) as (pre & post & E). destruct l as [|w' l]; [done|].
    exists (w ++ L " " ++ pre), post.
    change (join (L " ") (w :: w' :: l)) with (w ++ L " " ++ join (L " ") (w' :: l)).
    rewrite E. by rewrite <- !app_assoc.
Qed.

Lemma collect_sections_spec (ts : list abstract_text) :
  collect_sections ts = (abstract_texts ts, conclusion_texts ts).
Proof.
  unfold abstract_texts, conclusion_texts.
  induction ts as [|t ts IH]; [done|].
  cbn [collect_sections List.filter map]. rewrite IH.
  unfold stripped_text, is_conclusion.
  destruct (truthy (py_strip (at_text t))); simpl; [|reflexivity].
  destruct (str_contains _ (section_label t)); reflexivity.
Qed.

Lemma texts_tight (f : abstract_text -> bool) (ts : list abstract_text) :
  (forall t, f t = true -> truthy (stripped_text t) = true) ->
  Forall tight (map stripped_text (List.filter f ts)).
Proof.
  intros Hf. induction ts as [|t ts IH]; simpl; [constructor|].
  destruct (f t) eqn:E; simpl; [|exact IH].
  constructor; [|exact IH]. apply strip_tight, Hf, E.
Qed.

Lemma join_or_none_tight (l : list str) :
  Forall tight l ->
  join_or_none l = match l with [] => None | ws => Some (join (L " ") ws) end
  /\ join_or_none l <> Some [].
Proof.
  intros HF. destruct l as [|w l]; [split; [done|discriminate]|].
  assert (Ht : tight (join (L " ") (w :: l))) by (apply join_tight; [discriminate|exact HF]).
  change (join_or_none (w :: l)) with (Some (py_strip (join (L " ") (w :: l)))).
  rewrite (strip_of_tight _ Ht). split; [reflexivity|].
  destruct Ht as [Ht _]. destruct (join (L " ") (w :: l)); [discriminate|done].
Qed.

Lemma conclusion_in_abstract (ts : list abstract_text) (x : str) :
  In x (conclusion_texts ts) -> In x (abstract_texts ts).
Proof.
  unfold conclusion_texts, abstract_texts. rewrite !in_map_iff.
  intros (t & <- & Ht). exists t. split; [done|].
  rewrite filter_In in *. destruct Ht as [Ht Hf].
  apply andb_true_iff in Hf. tauto.
Qed.

Lemma trim_words_segment_some (text s : str) (n : nat) :
  Some (trim_words text n) = Some s ->
  exists ws, segment ws (py_split text)
    /\ (py_split s = ws \/ s = join (L " ") ws ++ ELLIPSIS).
Proof. intros [= <-]. apply trim_words_segment. Qed.

Lemma fallback_segment (ab : str) :
  segment (py_split (if truthy (last_sentences ab 2) then last_sentences ab 2 else ab))
          (py_split ab).
Proof.
  destruct (truthy (last_sentences ab 2)); [apply last_sentences_segment|apply segment_refl].
Qed.

(** The three outcomes of [build_snippet] on a present entry. *)
Lemma build_snippet_cases (m : meta) :
  (truthy (py_strip (opt_str (m_conclusion m))) = true
   /\ build_snippet (Some m)
      = (Some (L "Conclusion"),
         Some (trim_words (py_strip (opt_str (m_conclusion m))) SNIPPET_MAX_WORDS)))
  \/ (truthy (py_strip (opt_str (m_conclusion m))) = false
      /\ truthy (py_strip (opt_str (m_abstract m))) = true
      /\ build_snippet (Some m)
         = (Some (L "From abstract"),
            Some (trim_words
                    (if truthy (last_sentences (py_strip (opt_str (m_abstract m))) 2)
                     then last_sentences (py_strip (opt_str (m_abstract m))) 2
                     else py_strip (opt_str (m_abstract m))) SNIPPET_MAX_WORDS)))
  \/ (truthy (py_strip (opt_str (m_conclusion m))) = false
      /\ truthy (py_strip (opt_str (m_abstract m))) = false
      /\ build_snippet (Some m) = (None, None)).
Proof.
  unfold build_snippet. cbv beta iota zeta.
  destruct (truthy (py_strip (opt_str (m_conclusion m)))) eqn:Hc; [by left|].
  destruct (truthy (py_strip (opt_str (m_abstract m)))) eqn:Ha; [by right; left|by right; right].
Qed.

(** C7: [trim_words] with the snippet limit of 70 returns its input
    unchanged when it has at most 70 words; otherwise it returns the first
    70 words joined by single spaces, which re-split into exactly those 70
    words, followed by the ellipsis marker.  A text of 100 words becomes its
    first 70 words and the marker. *)
Theorem trim_words_limit (text : str) :
  ((length (py_split text) <= SNIPPET_MAX_WORDS
    /\ trim_words text SNIPPET_MAX_WORDS = text)
   \/ (SNIPPET_MAX_WORDS < length (py_split text)
       /\ exists ws, ws = firstn SNIPPET_MAX_WORDS (py_split text)
          /\ length ws = SNIPPET_MAX_WORDS
          /\ py_split (join (L " ") ws) = ws
          /\ trim_words text SNIPPET_MAX_WORDS = join (L " ") ws ++ ELLIPSIS))
  /\ trim_words (join (L " ") (repeat (L "w") 100)) SNIPPET_MAX_WORDS
     = join (L " ") (repeat (L "w") 70) ++ ELLIPSIS.
Proof.
  split; [|vm_compute; reflexivity].
  destruct (trim_words_cases text SNIPPET_MAX_WORDS) as [H|(Hlt & Ht & Hw & Hl)];
    [by left|right].
  split; [exact Hlt|]. by exists (firstn SNIPPET_MAX_WORDS (py_split text)).
Qed.

(** C6: [build_snippet] takes the stripped conclusion when it is
    non-empty, labelled "Conclusion"; otherwise the stripped abstract when
    it is non-empty, labelled "From abstract", using its last two sentences
    and falling back to the whole abstract when these are empty; otherwise
    no snippet.  The text is trimmed to 70 words in both cases.  An article
    whose only section is labelled "Conclusions" with text "X Y Z." gets
    ("Conclusion", "X Y Z."), and the abstract "A. B. C." without a
    conclusion gets ("From abstract", "B. C."). *)
Theorem build_snippet_priority (e : option meta) :
  ((exists m c, e = Some m /\ m_conclusion m = Some c /\ truthy (py_strip c) = true
      /\ build_snippet e
         = (Some (L "Conclusion"), Some (trim_words (py_strip c) SNIPPET_MAX_WORDS)))
   \/ (exists m a, e = Some m
      /\ truthy (py_strip (opt_str (m_conclusion m))) = false
      /\ m_abstract m = Some a /\ truthy (py_strip a) = true
      /\ build_snippet e
         = (Some (L "From abstract"),
            Some (trim_words
                    (let ls := last_sentences (py_strip a) 2 in
                     if truthy ls then ls else py_strip a) SNIPPET_MAX_WORDS)))
   \/ ((e = None
        \/ exists m, e = Some m
           /\ truthy (py_strip (opt_str (m_conclusion m))) = false
           /\ truthy (py_strip (opt_str (m_abstract m))) = false)
       /\ build_snippet e = (None, None)))
  /\ build_snippet (option_map snd (parse_article (mkArticle (Some (L "123"))
        (Some [mkAT (Some (L "Conclusions")) None (L "X Y Z.")]))))
     = (Some (L "Conclusion"), Some (L "X Y Z."))
  /\ build_snippet (Some (mkMeta (Some (L "A. B. C.")) None))
     = (Some (L "From abstract"), Some (L "B. C.")).
Proof.
  split; [|split; vm_compute; reflexivity].
  destruct e as [m|]; [|right; right; split; [by left|reflexivity]].
  destruct (truthy (py_strip (opt_str (m_conclusion m)))) eqn:Hc.
  - left. destruct (opt_str_truthy _ Hc) as (c & Ec & Eo).
    exists m, c. split; [done|]. split; [exact Ec|]. split; [rewrite <- Eo; exact Hc|].
    unfold build_snippet. cbv beta iota zeta. rewrite Hc, Eo. reflexivity.
  - destruct (truthy (py_strip (opt_str (m_abstract m)))) eqn:Ha.
    + right; left. destruct (opt_str_truthy _ Ha) as (a & Ea & Eo).
      exists m, a. split; [done|]. split; [exact Hc|]. split; [exact Ea|].
      split; [rewrite <- Eo; exact Ha|].
      unfold build_snippet. cbv beta iota zeta. rewrite Hc, Ha, Eo. reflexivity.
    + right; right. split; [right; by exists m|].
      unfold build_snippet. cbv beta iota zeta. rewrite Hc, Ha. reflexivity.
Qed.

(** C9: a snippet returned by [build_snippet] comes from the entry's
    conclusion (label "Conclusion") or abstract (label "From abstract"),
    and there is a contiguous run [ws] of the words of that source text
    such that the snippet either splits into exactly [ws] or is [ws] joined
    by single spaces followed by the ellipsis marker. *)
Theorem build_snippet_sourced (e : option meta) (label s : str) :
  build_snippet e = (Some label, Some s) ->
  exists m src ws, e = Some m
    /\ ((label = L "Conclusion" /\ m_conclusion m = Some src)
        \/ (label = L "From abstract" /\ m_abstract m = Some src))
    /\ segment ws (py_split src)
    /\ (py_split s = ws \/ s = join (L " ") ws ++ ELLIPSIS).
Proof.
  destruct e as [m|]; [|discriminate]. intros H.
  destruct (build_snippet_cases m) as [(Hc & E)|[(Hc & Ha & E)|(_ & _ & E)]];
    rewrite E in H; [| |discriminate];
    pose proof (f_equal fst H) as Hl; pose proof (f_equal snd H) as Hs;
    cbn [fst snd] in Hl, Hs.
  - destruct (opt_str_truthy _ Hc) as (c & Ec & Eo).
    destruct (trim_words_segment_some _ _ _ Hs) as (ws & Hseg & Hsw).
    exists m, c, ws. split; [done|]. split; [left; split; [congruence|exact Ec]|].
    split; [|exact Hsw]. rewrite py_split_strip, Eo in Hseg. exact Hseg.
  - destruct (opt_str_truthy _ Ha) as (a & Ea & Eo).
    destruct (trim_words_segment_some _ _ _ Hs) as (ws & Hseg & Hsw).
    pose proof (fallback_segment (py_strip (opt_str (m_abstract m)))) as Hfb.
    assert (Hab : py_split (py_strip (opt_str (m_abstract m))) = py_split a)
      by (rewrite py_split_strip, Eo; reflexivity).
    rewrite Hab in Hfb.
    exists m, a, ws. split; [done|]. split; [right; split; [congruence|exact Ea]|].
    split; [|exact Hsw]. exact (segment_trans _ _ _ Hseg Hfb).
Qed.

Lemma build_snippet_sourced_witness :
  build_snippet (Some (mkMeta (Some (L "A. B. C.")) None))
    = (Some (L "From abstract"), Some (L "B. C."))
  /\ exists m src ws, Some (mkMeta (Some (L "A. B. C.")) None) = Some m
    /\ ((L "From abstract" = L "Conclusion" /\ m_conclusion m = Some src)
        \/ (L "From abstract" = L "From abstract" /\ m_abstract m = Some src))
    /\ segment ws (py_split src)
    /\ (py_split (L "B. C.") = ws \/ L "B. C." = join (L " ") ws ++ ELLIPSIS).
Proof.
  assert (H : build_snippet (Some (mkMeta (Some (L "A. B. C.")) None))
              = (Some (L "From abstract"), Some (L "B. C."))) by reflexivity.
  split; [exact H|].
  exact (build_snippet_sourced _ _ _ H).
Defined.

(** C10: for an article kept by the parsing loop, the "abstract" field is
    the stripped, non-empty section texts joined by single spaces in
    document order ([None] when there are none), and the "conclusion"
    field is likewise built from exactly those sections whose lowercased,
    stripped label (or category) contains "conclusion"; when the
    conclusion is present the abstract is present too and contains each
    conclusion section text; neither field is ever the empty string. *)
Theorem parse_article_fields (a : article) (pid : str) (m : meta) :
  parse_article a = Some (pid, m) ->
  m_abstract m = match abstract_texts (sections a) with
                 | [] => None | _ => Some (join (L " ") (abstract_texts (sections a))) end
  /\ m_conclusion m = match conclusion_texts (sections a) with
                      | [] => None | _ => Some (join (L " ") (conclusion_texts (sections a))) end
  /\ (forall c, m_conclusion m = Some c ->
        exists ab, m_abstract m = Some ab
          /\ forall x, In x (conclusion_texts (sections a)) ->
               exists pre post, ab = pre ++ x ++ post)
  /\ m_abstract m <> Some []
  /\ m_conclusion m <> Some [].
Proof.
  intros H.
  assert (Hm : m = mkMeta (join_or_none (abstract_texts (sections a)))
                          (join_or_none (conclusion_texts (sections a)))).
  { assert (E : match art_abstract a with
                | None => ([], []) | Some ts => collect_sections ts end
                = (abstract_texts (sections a), conclusion_texts (sections a))).
    { unfold sections. destruct (art_abstract a); [apply collect_sections_spec|reflexivity]. }
    unfold parse_article in H. rewrite E in H.
    destruct (art_pmid a) as [t|]; [|discriminate].
    destruct (truthy t); [|discriminate].
    injection H as _ <-. reflexivity. }
  assert (Hsub : forall x, In x (conclusion_texts (sections a)) ->
                           In x (abstract_texts (sections a)))
    by apply conclusion_in_abstract.
  destruct (join_or_none_tight (abstract_texts (sections a))) as [Ea Na].
  { apply texts_tight. done. }
  destruct (join_or_none_tight (conclusion_texts (sections a))) as [Ec Nc].
  { apply texts_tight. intros t Ht. apply andb_true_iff in Ht. tauto. }
  subst m. cbn [m_abstract m_conclusion].
  refine (conj Ea (conj Ec (conj _ (conj Na Nc)))).
  rewrite Ea, Ec. intros c.
  destruct (conclusion_texts (sections a)) as [|x0 cts]; [discriminate|intros _].
  destruct (abstract_texts (sections a)) as [|y ats].
  { destruct (Hsub x0 (in_eq _ _)). }
  exists (join (L " ") (y :: ats)). split; [reflexivity|].
  intros x Hx. apply join_infix, Hsub, Hx.
Qed.

Lemma parse_article_fields_witness :
  let a := mkArticle (Some (L "123"))
             (Some [mkAT (Some (L "Conclusions")) None (L "X Y Z.")]) in
  let m := mkMeta (Some (L "X Y Z.")) (Some (L "X Y Z.")) in
  parse_article a = Some (L "123", m)
  /\ m_abstract m = match abstract_texts (sections a) with
                    | [] => None | _ => Some (join (L " ") (abstract_texts (sections a))) end
  /\ m_conclusion m = match conclusion_texts (sections a) with
                      | [] => None | _ => Some (join (L " ") (conclusion_texts (sections a))) end
  /\ (forall c, m_conclusion m = Some c ->
        exists ab, m_abstract m = Some ab
          /\ forall x, In x (conclusion_texts (sections a)) ->
               exists pre post, ab = pre ++ x ++ post)
  /\ m_abstract m <> Some []
  /\ m_conclusion m <> Some [].
Proof.
  intros a m.
  assert (H : parse_article a = Some (L "123", m)) by reflexivity.
  split; [exact H|].
  exact (parse_article_fields a (L "123") m H).
Defined.

(** * Further properties of the code

    Search window, request parameters, batching and the run as a whole,
    snippets, escaping, date parsing, deduplication and the digest. *)

Lemma div_succ_const (k n : Z) : (0 < n)%Z -> (0 <= k)%Z ->
  ((k + 1) / n = k / n + if ((k + 1) mod n =? 0)%Z then 1 else 0)%Z.
Proof.
  intros Hn Hk.
  pose proof (Z.div_mod k n ltac:(lia)) as E1.
  pose proof (Z.mod_pos_bound k n Hn) as B1.
  destruct (Z.eqb_spec ((k + 1) mod n) 0) as [H|H].
  - assert (k mod n = n - 1)%Z.
    { pose proof (Z.div_mod (k + 1) n ltac:(lia)) as E2. rewrite H in E2.
      assert (k = n * ((k + 1) / n - 1) + (n - 1))%Z as E3 by lia.
      rewrite E3, Z.add_comm, Z.mul_comm, Z.mod_add by lia. apply Z.mod_small. lia. }
    symmetry. apply Z.div_unique with 0%Z; lia.
  - assert (k mod n <> n - 1)%Z.
    { intros E. apply H. rewrite E1 at 1. rewrite E.
      replace (n * (k / n) + (n - 1) + 1)%Z with ((k / n + 1) * n)%Z by lia.
      apply Z.mod_mul. lia. }
    symmetry. apply Z.div_unique with (k mod n + 1)%Z; lia.
Qed.

Lemma days_before_year_succ (y : Z) : (1 <= y)%Z ->
  days_before_year (y + 1) = (days_before_year y + 365 + if is_leap y then 1 else 0)%Z.
Proof.
  intros Hy. unfold days_before_year, is_leap.
  replace (y + 1 - 1)%Z with ((y - 1) + 1)%Z by lia.
  rewrite !(div_succ_const (y - 1)) by lia.
  replace (y - 1 + 1)%Z with y by lia.
  destruct (Z.eqb_spec (y mod 4) 0), (Z.eqb_spec (y mod 100) 0), (Z.eqb_spec (y mod 400) 0);
    simpl; try lia; exfalso; Z.div_mod_to_equations; lia.
Qed.

Ltac month_cases m :=
  let H := fresh in
  assert (H : (m = 1 \/ m = 2 \/ m = 3 \/ m = 4 \/ m = 5 \/ m = 6 \/ m = 7 \/ m = 8
               \/ m = 9 \/ m = 10 \/ m = 11 \/ m = 12)%Z) by lia;
  repeat destruct H as [H|H]; subst m.

Lemma valid_date_iff (y m d : Z) :
  valid_date (y, m, d) = true <->
  (1 <= y <= MAXYEAR /\ 1 <= m <= 12 /\ 1 <= d <= days_in_month y m)%Z.
Proof.
  unfold valid_date. rewrite !andb_true_iff, !Z.leb_le. tauto.
Qed.

Lemma days_in_month_bounds (y m : Z) : (28 <= days_in_month y m <= 31)%Z.
Proof.
  unfold days_in_month.
  destruct (m =? 2)%Z; [destruct (is_leap y); lia|].
  destruct (_ || _); lia.
Qed.

Lemma days_before_year_nonneg (y : Z) : (1 <= y)%Z -> (0 <= days_before_year y)%Z.
Proof. intros Hy. unfold days_before_year. Z.div_mod_to_equations. lia. Qed.

Lemma toordinal_pos (d : date) : valid_date d = true -> (1 <= toordinal d)%Z.
Proof.
  destruct d as [[y m] dd]. rewrite valid_date_iff. intros (Hy & Hm & Hd).
  pose proof (days_before_year_nonneg y ltac:(lia)).
  unfold toordinal, days_before_month.
  month_cases m; simpl; destruct (is_leap y); simpl; lia.
Qed.

Lemma prev_day_spec (d : date) :
  valid_date d = true ->
  match prev_day d with
  | Some d' => valid_date d' = true /\ toordinal d' = (toordinal d - 1)%Z
  | None => d = (1, 1, 1)%Z
  end.
Proof.
  destruct d as [[y m] dd]. rewrite valid_date_iff. intros (Hy & Hm & Hd).
  unfold prev_day.
  destruct (Z.ltb_spec 1 dd).
  { rewrite valid_date_iff. unfold toordinal. lia. }
  destruct (Z.ltb_spec 1 m).
  { rewrite valid_date_iff. pose proof (days_in_month_bounds y (m - 1)).
    split; [lia|]. unfold toordinal, days_before_month.
    assert (dd = 1)%Z by lia. subst dd.
    month_cases m; unfold days_in_month; simpl; destruct (is_leap y); simpl; lia. }
  destruct (Z.ltb_spec 1 y).
  { rewrite valid_date_iff. split; [unfold days_in_month; simpl; lia|].
    assert (dd = 1 /\ m = 1)%Z as [-> ->] by lia.
    unfold toordinal, days_before_month. simpl.
    pose proof (days_before_year_succ (y - 1) ltac:(lia)) as E.
    replace (y - 1 + 1)%Z with y in E by lia. rewrite E.
    destruct (is_leap (y - 1)); simpl; lia. }
  f_equal; [f_equal|]; lia.
Qed.

Lemma sub_days_spec (n : nat) (d : date) :
  valid_date d = true ->
  match sub_days n d with
  | Some d' => valid_date d' = true /\ toordinal d' = (toordinal d - Z.of_nat n)%Z
  | None => (toordinal d <= Z.of_nat n)%Z
  end.
Proof.
  revert d. induction n as [|n IH]; intros d Hd; simpl.
  - split; [done|lia].
  - pose proof (prev_day_spec d Hd) as Hp.
    destruct (prev_day d) as [d'|].
    + destruct Hp as [Hv Ho]. specialize (IH d' Hv).
      destruct (sub_days n d'); [destruct IH as [? ?]; split; [done|lia]|lia].
    + subst d. change (toordinal (1, 1, 1)%Z) with 1%Z. lia.
Qed.

Lemma digit_digit_char (n : Z) : (0 <= n <= 9)%Z -> digit (digit_char n) = Some n.
Proof.
  intros Hn.
  assert (Hk : exists k, (k < 10)%nat /\ n = Z.of_nat k) by (exists (Z.to_nat n); lia).
  destruct Hk as (k & Hk & ->).
  do 10 (destruct k as [|k]; [reflexivity|]). lia.
Qed.

Lemma parse_year_fmt (y : Z) (rest : str) :
  (1000 <= y <= 9999)%Z -> parse_year (fmt_year y ++ rest) = Some (y, rest).
Proof.
  intros Hy. unfold fmt_year. cbn [dec_go].
  destruct (Z.ltb_spec y 10); [lia|].
  destruct (Z.ltb_spec (y / 10) 10); [Z.div_mod_to_equations; lia|].
  destruct (Z.ltb_spec (y / 10 / 10) 10); [Z.div_mod_to_equations; lia|].
  destruct (Z.ltb_spec (y / 10 / 10 / 10) 10); [|Z.div_mod_to_equations; lia].
  cbn [app parse_year].
  rewrite !digit_digit_char by (Z.div_mod_to_equations; lia).
  f_equal. f_equal. Z.div_mod_to_equations. lia.
Qed.

Lemma parse_month_pad2 (m : Z) (rest : str) :
  (1 <= m <= 12)%Z ->
  parse_month (digit_char (m / 10) :: digit_char (m mod 10) :: rest) = Some (m, rest).
Proof.
  intros Hm.
  assert (Hk : exists k, (k < 12)%nat /\ m = Z.of_nat (S k)) by (exists (Z.to_nat (m - 1)); lia).
  destruct Hk as (k & Hk & ->).
  do 12 (destruct k as [|k]; [reflexivity|]). lia.
Qed.

Lemma parse_day_pad2 (d : Z) :
  (1 <= d <= 31)%Z -> parse_day (pad2 d) = Some (d, []).
Proof.
  intros Hd.
  assert (Hk : exists k, (k < 31)%nat /\ d = Z.of_nat (S k)) by (exists (Z.to_nat (d - 1)); lia).
  destruct Hk as (k & Hk & ->).
  do 31 (destruct k as [|k]; [reflexivity|]). lia.
Qed.

Lemma strptime_strftime (d : date) :
  valid_date d = true -> (1000 <= d.1.1)%Z -> strptime_ymd (strftime_ymd d) = Some d.
Proof.
  destruct d as [[y m] dd]. rewrite valid_date_iff. simpl. intros (Hy & Hm & Hd) H1000.
  pose proof (days_in_month_bounds y m).
  unfold strptime_ymd, strftime_ymd.
  rewrite parse_year_fmt by (unfold MAXYEAR in *; lia).
  cbn [L list_ascii_of_string app].
  change (is_char 47 "/"%char) with true. cbv iota.
  rewrite parse_month_pad2 by lia.
  cbn [L list_ascii_of_string app].
  change (is_char 47 "/"%char) with true. cbv iota.
  rewrite parse_day_pad2 by lia.
  destruct (Z.leb_spec 1 y); [|lia]. destruct (Z.leb_spec dd (days_in_month y m)); [|lia].
  reflexivity.
Qed.

Lemma strptime_strftime_short (d : date) :
  (1 <= d.1.1 < 1000)%Z -> strptime_ymd (strftime_ymd d) = None.
Proof.
  destruct d as [[y m] dd]. simpl. intros Hy.
  unfold strptime_ymd, strftime_ymd, fmt_year. cbn [dec_go].
  destruct (Z.ltb_spec y 10).
  { cbn. change (digit "/"%char) with (@None Z).
    repeat (destruct (digit (digit_char _))); reflexivity. }
  destruct (Z.ltb_spec (y / 10) 10).
  { cbn. change (digit "/"%char) with (@None Z).
    repeat (destruct (digit (digit_char _))); reflexivity. }
  destruct (Z.ltb_spec (y / 10 / 10) 10); [|Z.div_mod_to_equations; lia].
  cbn. change (digit "/"%char) with (@None Z).
    repeat (destruct (digit (digit_char _))); reflexivity.
Qed.

Lemma toordinal_bounds (y m dd : Z) :
  valid_date (y, m, dd) = true ->
  (days_before_year y < toordinal (y, m, dd)
   <= days_before_year y + 365 + if is_leap y then 1 else 0)%Z.
Proof.
  rewrite valid_date_iff. intros (Hy & Hm & Hd).
  unfold toordinal, days_before_month. unfold days_in_month in Hd.
  month_cases m; simpl in *; destruct (is_leap y); simpl in *; lia.
Qed.

Lemma days_before_year_mono (a b : Z) :
  (1 <= a <= b)%Z -> (days_before_year a <= days_before_year b)%Z.
Proof.
  intros Hab. replace b with (a + Z.of_nat (Z.to_nat (b - a)))%Z by lia.
  induction (Z.to_nat (b - a)) as [|k IH]; [simpl; rewrite Z.add_0_r; lia|].
  replace (a + Z.of_nat (S k))%Z with ((a + Z.of_nat k) + 1)%Z by lia.
  rewrite days_before_year_succ by lia. destruct (is_leap _); lia.
Qed.

Lemma window_year (s t : date) :
  valid_date s = true -> valid_date t = true -> (1001 <= t.1.1)%Z ->
  toordinal s = (toordinal t - 7)%Z -> (1000 <= s.1.1)%Z.
Proof.
  destruct s as [[ys ms] ds], t as [[yt mt] dt]. cbn [fst snd]. intros Hs Ht Hyt Ho.
  destruct (Z.le_gt_cases 1000 ys) as [|Hys]; [done|exfalso].
  pose proof (toordinal_bounds _ _ _ Hs) as [_ Bs].
  pose proof (toordinal_bounds _ _ _ Ht) as [Bt _].
  apply valid_date_iff in Hs as (Hys1 & _).
  pose proof (days_before_year_succ ys ltac:(lia)) as E1.
  pose proof (days_before_year_succ 1000 ltac:(lia)) as E2.
  pose proof (days_before_year_mono (ys + 1) 1000 ltac:(lia)).
  pose proof (days_before_year_mono 1001 yt ltac:(lia)).
  change (1000 + 1)%Z with 1001%Z in E2. destruct (is_leap ys), (is_leap 1000); lia.
Qed.

(** [last_7d_window_ist] on a valid date: when the date lies in the first
    seven days of year 1 the subtraction of seven days overflows and no
    window is returned; otherwise the window starts at the valid date exactly
    seven days earlier and both ends are formatted with [strftime_ymd]. *)
Theorem last_7d_window_ist_overflow (today : date) :
  valid_date today = true ->
  (toordinal today <= 7 -> last_7d_window_ist today = None)%Z
  /\ (7 < toordinal today ->
      exists start, valid_date start = true /\ toordinal start = toordinal today - 7
        /\ last_7d_window_ist today = Some (strftime_ymd start, strftime_ymd today))%Z.
Proof.
  intros Hv. pose proof (sub_days_spec 7 today Hv) as Hs.
  unfold last_7d_window_ist. destruct (sub_days 7 today) as [start|].
  - destruct Hs as [Hs Ho]. simpl in Ho. split; [intros H; pose proof (toordinal_pos _ Hs); lia|]. intros _. by exists start.
  - simpl in Hs. split; [done|lia].
Qed.

(** For a valid date from year 1001 on, both ends of the window returned by
    [last_7d_window_ist] are strings that [strptime_ymd] (the [%Y/%m/%d]
    parser used for sort dates) reads back to the two dates, seven days
    apart. *)
Theorem last_7d_window_ist_parses (today : date) :
  valid_date today = true -> (1001 <= today.1.1)%Z ->
  exists start, last_7d_window_ist today = Some (strftime_ymd start, strftime_ymd today)
    /\ strptime_ymd (strftime_ymd start) = Some start
    /\ strptime_ymd (strftime_ymd today) = Some today
    /\ toordinal start = (toordinal today - 7)%Z.
Proof.
  intros Hv Hy. pose proof (sub_days_spec 7 today Hv) as Hs.
  unfold last_7d_window_ist. destruct (sub_days 7 today) as [start|].
  - destruct Hs as [Hs Ho]. simpl in Ho. exists start.
    split; [done|]. split; [|split; [apply strptime_strftime; [exact Hv|lia]|exact Ho]].
    apply strptime_strftime; [done|]. exact (window_year _ _ Hs Hv Hy Ho).
  - exfalso. simpl in Hs. destruct today as [[y m] d].
    pose proof (toordinal_bounds _ _ _ Hv) as [B _].
    pose proof (days_before_year_mono 2 y ltac:(simpl in Hy; lia)).
    change (days_before_year 2) with 365%Z in *. lia.
Qed.

Lemma last_7d_window_ist_parses_witness :
  valid_date (2024, 3, 5)%Z = true /\ (1001 <= (2024, 3, 5).1.1)%Z /\
  exists start, last_7d_window_ist (2024, 3, 5)%Z = Some (strftime_ymd start, strftime_ymd (2024, 3, 5)%Z)
    /\ strptime_ymd (strftime_ymd start) = Some start
    /\ strptime_ymd (strftime_ymd (2024, 3, 5)%Z) = Some (2024, 3, 5)%Z
    /\ toordinal start = (toordinal (2024, 3, 5)%Z - 7)%Z.
Proof.
  assert (H1 : valid_date (2024, 3, 5)%Z = true) by reflexivity.
  assert (H2 : (1001 <= (2024, 3, 5).1.1)%Z) by (simpl; lia).
  split; [exact H1|]. split; [exact H2|].
  exact (last_7d_window_ist_parses _ H1 H2).
Defined.

Lemma dict_get_set (k k' : str) (v : pval) (d : params) :
  dict_get k (dict_set k' v d) = if decide (k' = k) then Some v else dict_get k d.
Proof.
  induction d as [|[k0 v0] d IH]; simpl.
  - by destruct (decide (k' = k)).
  - destruct (decide (k0 = k')) as [->|Hne]; simpl.
    + by destruct (decide (k' = k)).
    + rewrite IH. destruct (decide (k0 = k)), (decide (k' = k)); congruence.
Qed.

Lemma dict_set_keys (k : str) (v : pval) (d : params) :
  exists extra, map fst (dict_set k v d) = map fst d ++ extra
    /\ (k ∈ map fst d -> extra = []) /\ (k ∉ map fst d -> extra = [k]).
Proof.
  induction d as [|[k0 v0] d IH]; simpl.
  - exists [k]. split; [done|]. split; [intros H; inversion H|done].
  - destruct (decide (k0 = k)) as [->|Hne]; simpl.
    + exists []. rewrite app_nil_r. split; [done|]. split; [done|].
      intros H. exfalso. apply H. by left.
    + destruct IH as (ex & -> & H1 & H2). exists ex. split; [done|].
      split; intros H.
      * apply H1. apply elem_of_cons in H as [?|?]; [congruence|done].
      * apply H2. intros H'. apply H. by right.
Qed.

Lemma dict_set_nodup (k : str) (v : pval) (d : params) :
  NoDup (map fst d) -> NoDup (map fst (dict_set k v d)).
Proof.
  intros Hnd. destruct (dict_set_keys k v d) as (ex & -> & H1 & H2).
  destruct (decide (k ∈ map fst d)) as [Hin|Hnin].
  - rewrite (H1 Hin), app_nil_r. done.
  - rewrite (H2 Hnin). apply NoDup_app. split; [done|]. split; [|apply NoDup_singleton].
    intros x Hx Hx'. apply list_elem_of_singleton in Hx'. subst. done.
Qed.

Lemma dict_get_none (k : str) (e : params) : k ∉ map fst e -> dict_get k e = None.
Proof.
  induction e as [|[k0 v0] e IH]; simpl; [done|]. intros H.
  destruct (decide (k0 = k)) as [->|]; [exfalso; apply H; by left|].
  apply IH. intros H'. apply H. by right.
Qed.

Lemma dict_get_update (k : str) (d e : params) :
  NoDup (map fst e) ->
  dict_get k (dict_update d e) = match dict_get k e with Some v => Some v | None => dict_get k d end.
Proof.
  unfold dict_update. revert d. induction e as [|[k0 v0] e IH]; intros d Hnd; simpl; [done|].
  apply NoDup_cons in Hnd as [Hk0 Hnd].
  rewrite IH by done. rewrite dict_get_set.
  destruct (decide (k0 = k)) as [->|]; [|done].
  by rewrite dict_get_none.
Qed.

Lemma dict_update_keys (d e : params) :
  NoDup (map fst d) ->
  NoDup (map fst (dict_update d e)) /\ exists extra, map fst (dict_update d e) = map fst d ++ extra.
Proof.
  unfold dict_update. revert d. induction e as [|[k0 v0] e IH]; intros d Hnd; simpl.
  - split; [done|]. exists []. by rewrite app_nil_r.
  - destruct (IH (dict_set k0 v0 d) (dict_set_nodup _ _ _ Hnd)) as [H1 (ex & Hex)].
    split; [done|]. destruct (dict_set_keys k0 v0 d) as (ex' & E & _).
    exists (ex' ++ ex). rewrite Hex, E. by rewrite app_assoc.
Qed.

(** [eutils_params]: for an [extra] dict with distinct keys, a key of
    [extra] maps to its value there; any other key gets the default
    [tool], [email], or [api_key] (only when the key is non-empty), and
    nothing else.  The result has distinct keys and starts with [tool] and
    [email]. *)
Theorem eutils_params_spec (tool email api_key : str) (extra : option params) (k : str) :
  NoDup (map fst (default [] extra)) ->
  dict_get k (eutils_params tool email api_key extra)
  = match dict_get k (default [] extra) with
    | Some v => Some v
    | None =>
        if decide (k = L "tool") then Some (PStr tool)
        else if decide (k = L "email") then Some (PStr email)
        else if decide (k = L "api_key") then
          (if truthy api_key then Some (PStr api_key) else None)
        else None
    end
  /\ NoDup (map fst (eutils_params tool email api_key extra))
  /\ take 2 (map fst (eutils_params tool email api_key extra)) = [L "tool"; L "email"].
Proof.
  intros Hnd.
  set (p0 := [(L "tool", PStr tool); (L "email", PStr email)]).
  set (p1 := if truthy api_key then dict_set (L "api_key") (PStr api_key) p0 else p0).
  assert (Hp1 : dict_get k p1 =
      if decide (k = L "tool") then Some (PStr tool)
      else if decide (k = L "email") then Some (PStr email)
      else if decide (k = L "api_key") then
        (if truthy api_key then Some (PStr api_key) else None)
      else None).
  { unfold p1, p0. destruct (truthy api_key); [rewrite dict_get_set|]; simpl;
      repeat destruct (decide _); subst; try congruence; done. }
  assert (Hk1 : NoDup (map fst p1) /\ take 2 (map fst p1) = [L "tool"; L "email"]).
  { unfold p1, p0. destruct (truthy api_key); [|split; [repeat constructor; set_solver|done]].
    split; [apply dict_set_nodup; repeat constructor; set_solver|reflexivity]. }
  destruct Hk1 as [Hn1 Ht1].
  assert (E : eutils_params tool email api_key extra
              = match extra with Some ((_ :: _) as e) => dict_update p1 e | _ => p1 end)
    by reflexivity.
  rewrite E. destruct extra as [[|[k0 v0] e]|]; simpl in Hnd;
    [simpl; by rewrite Hp1| |simpl; by rewrite Hp1].
  destruct (dict_update_keys p1 ((k0, v0) :: e) Hn1) as [Hn2 (ex & Hex)].
  split; [|split; [exact Hn2|]].
  - rewrite dict_get_update by exact Hnd. cbn [default from_option id dict_get].
    destruct (decide (k0 = k)); [reflexivity|].
    destruct (dict_get k e); [reflexivity|exact Hp1].
  - rewrite Hex. rewrite take_app_le; [done|].
    destruct (map fst p1) as [|a [|b l]]; simpl in Ht1; try discriminate; simpl; lia.
Qed.

Lemma chunks_go_spec (f : nat) (l : list str) :
  length l <= f ->
  concat (chunks_go f l) = l
  /\ Forall (fun c => c <> [] /\ length c <= BATCH) (chunks_go f l)
  /\ Forall (fun c => length c = BATCH) (removelast (chunks_go f l)).
Proof.
  revert l. induction f as [|f IH]; intros l Hl.
  - destruct l; [|simpl in Hl; lia]. simpl. repeat split; constructor.
  - destruct l as [|x l']; [simpl; repeat split; constructor|].
    set (l := x :: l') in *.
    assert (Hs : length (skipn BATCH l) <= f) by (rewrite length_skipn; simpl in Hl |- *; lia).
    destruct (IH _ Hs) as (Hc & Hb & Hr).
    cbn [chunks_go]. fold l.
    assert (E : match l with [] => [] | _ => firstn BATCH l :: chunks_go f (skipn BATCH l) end
                = firstn BATCH l :: chunks_go f (skipn BATCH l)) by reflexivity.
    rewrite E. split; [|split].
    + cbn [concat]. rewrite Hc. apply take_drop.
    + constructor; [|exact Hb]. split.
      * unfold l, BATCH. simpl. discriminate.
      * rewrite length_take. lia.
    + destruct (chunks_go f (skipn BATCH l)) as [|c cs] eqn:Ec.
      * constructor.
      * change (removelast (firstn BATCH l :: c :: cs))
          with (firstn BATCH l :: removelast (c :: cs)).
        constructor; [|exact Hr].
        rewrite length_take.
        assert (length (skipn BATCH l) <> 0).
        { intros H0. apply length_zero_iff_nil in H0. rewrite H0 in Ec.
          destruct f; discriminate. }
        rewrite length_skipn in H. lia.
Qed.

(** Requests and results of [fetch_chunks]: one [EFetch] per chunk, and
    the articles of all responses folded into the map in order. *)
Lemma fetch_chunks_run (idx : index) (out : meta_map) (cs : list (list str)) (tr : list event) :
  fetch_chunks idx out cs tr
  = (foldl add_article out (concat (map (idx_fetch idx) cs)), tr ++ map EFetch cs).
Proof.
  revert out tr. induction cs as [|c cs IH]; intros out tr; simpl.
  - by rewrite app_nil_r.
  - unfold bind, emit. rewrite IH, foldl_app, <- app_assoc. reflexivity.
Qed.

Lemma foldl_add_article_lookup (arts : list article) (out : meta_map) (pid : str) :
  foldl add_article out arts !! pid
  = match last (omap (fun a => match parse_article a with
                               | Some (p, e) => if decide (p = pid) then Some e else None
                               | None => None end) arts) with
    | Some e => Some e
    | None => out !! pid
    end.
Proof.
  revert out. induction arts as [|a arts IH]; intros out; simpl; [done|].
  rewrite IH. unfold add_article. unfold meta_map in *.
  destruct (parse_article a) as [[p e]|]; simpl; [|done].
  destruct (decide (p = pid)) as [->|Hne]; simpl.
  - rewrite last_cons. destruct (last _); [done|]. by rewrite lookup_insert_eq.
  - destruct (last _); [done|]. by rewrite lookup_insert_ne.
Qed.

(** The batches of [efetch_abstract_map]: concatenated in order they give
    back the id list; each is non-empty with at most 100 ids, and all but
    the last have exactly 100. *)
Theorem chunks_spec (l : list str) :
  concat (chunks l) = l
  /\ Forall (fun c => c <> [] /\ length c <= 100) (chunks l)
  /\ Forall (fun c => length c = 100) (removelast (chunks l)).
Proof. apply chunks_go_spec. lia. Qed.

(** [efetch_abstract_map] sends one efetch request per batch, in order, and
    none for an empty list; a PMID maps to the entry of the last returned
    article with that (stripped) PMID, over all responses in order, and is
    absent when no returned article has it. *)
Theorem efetch_abstract_map_spec (idx : index) (pmids : list str) (tr : list event) (pid : str) :
  snd (efetch_abstract_map idx pmids tr) = tr ++ map EFetch (chunks pmids)
  /\ fst (efetch_abstract_map idx pmids tr) !! pid
     = last (omap (fun a => match parse_article a with
                            | Some (p, e) => if decide (p = pid) then Some e else None
                            | None => None end)
                  (concat (map (idx_fetch idx) (chunks pmids)))).
Proof.
  unfold efetch_abstract_map. destruct pmids as [|x l].
  - simpl. rewrite app_nil_r. split; [done|]. unfold meta_map. by rewrite lookup_empty.
  - rewrite fetch_chunks_run. simpl fst; simpl snd. split; [done|].
    rewrite foldl_add_article_lookup. destruct (last _); [done|].
    unfold meta_map. by rewrite lookup_empty.
Qed.

Lemma efetch_abstract_map_run (idx : index) (pmids : list str) (tr : list event) :
  efetch_abstract_map idx pmids tr
  = (fst (efetch_abstract_map idx pmids []), tr ++ map EFetch (chunks pmids)).
Proof.
  unfold efetch_abstract_map. destruct pmids as [|x l].
  - simpl. by rewrite app_nil_r.
  - rewrite !fetch_chunks_run. reflexivity.
Qed.

(** One run of the main block: a search, a summary request only when the
    search found ids, one fetch per batch of the ranked PMIDs, the
    abstracts page written only when a base URL is set, and then one email.
    The page and both bodies are built from the same items and metadata. *)
Theorem run_trace (idx : index) (base_url mindate maxdate : str) :
  let term := pubmed_query JOURNALS KEYWORDS ADD_HUMANS_FILTER in
  let pmids := idx_search idx term mindate maxdate in
  let items := match pmids with [] => [] | _ => esummary_result (idx_summary idx pmids) end in
  let mm := fst (efetch_abstract_map idx (map it_pmid items) []) in
  run idx base_url mindate maxdate =
    [ESearch term mindate maxdate]
    ++ match pmids with [] => [] | _ => [ESummary pmids] end
    ++ map EFetch (chunks (map it_pmid items))
    ++ (if truthy base_url
        then [EWrite (L "abstracts.html") (build_abstracts_page items mm mindate maxdate)]
        else [])
    ++ [ESend (build_html items mindate maxdate (Some mm) base_url)
              (build_text items mindate maxdate (Some mm) base_url)
              (L "Pain Literature Weekly — " ++ mindate ++ L " to " ++ maxdate)].
Proof.
  intros term pmids items mm.
  unfold run, main, esearch, esummary. fold term.
  unfold bind at 1, emit at 1. unfold bind at 1, ret at 1. fold pmids.
  assert (Hs : forall tr, (match pmids with [] => ret [] | _ => emit (ESummary pmids) ;; ret (esummary_result (idx_summary idx pmids)) end) tr
               = (items, tr ++ match pmids with [] => [] | _ => [ESummary pmids] end)).
  { intros tr. unfold items. destruct pmids; [by rewrite app_nil_r|reflexivity]. }
  unfold bind at 1. rewrite Hs. cbn [orb INCLUDE_CONCLUSION_SNIPPET].
  unfold bind. rewrite efetch_abstract_map_run. fold mm. unfold ret, emit.
  destruct (truthy base_url); cbn [snd]; rewrite <- !app_assoc; reflexivity.
Qed.

Lemma wordlike_tight (w : str) : wordlike w -> tight w.
Proof.
  intros [Hne Hw]. split.
  - destruct w as [|c w]; [done|]. inversion Hw; subst. simpl. by rewrite H1.
  - apply Forall_rev in Hw. destruct (rev w) as [|c w'] eqn:E.
    + apply (f_equal (@rev ascii)) in E. rewrite rev_involutive in E. done.
    + inversion Hw; subst. simpl. by rewrite H1.
Qed.

Lemma tight_ELLIPSIS : tight ELLIPSIS.
Proof. split; reflexivity. Qed.

Lemma tight_nonempty (s : str) : tight s -> s <> [].
Proof. intros [H _] ->. discriminate. Qed.

Lemma trim_words_tight (t : str) (n : nat) : tight t -> tight (trim_words t n).
Proof.
  intros Ht. destruct (trim_words_cases t n) as [[_ ->]|(_ & -> & _ & _)]; [exact Ht|].
  destruct (firstn n (py_split t)) as [|w ws] eqn:Ef; [exact tight_ELLIPSIS|].
  assert (Hj : tight (join (L " ") (w :: ws))).
  { apply join_tight; [discriminate|]. rewrite <- Ef.
    eapply Forall_impl; [apply Forall_take, py_split_wordlike|]. apply wordlike_tight. }
  split.
  - rewrite starts_ns_app; [apply Hj|apply tight_nonempty, Hj].
  - rewrite rev_app_distr, starts_ns_app; [reflexivity|discriminate].
Qed.

Lemma last_sentences_tight (t : str) (n : nat) :
  truthy (last_sentences t n) = true -> tight (last_sentences t n).
Proof.
  unfold last_sentences. cbv zeta.
  destruct (List.filter truthy _); [discriminate|]. apply strip_tight.
Qed.

Lemma Forall_drop_ws (P : ascii -> Prop) (s : str) : Forall P s -> Forall P (drop_ws s).
Proof.
  induction s as [|c s IH]; simpl; [done|]. intros H. inversion H; subst.
  destruct (is_space c); [by apply IH|done].
Qed.

Lemma Forall_py_strip (P : ascii -> Prop) (s : str) : Forall P s -> Forall P (py_strip s).
Proof.
  intros H. unfold py_strip. apply Forall_rev, Forall_drop_ws, Forall_rev, Forall_drop_ws, H.
Qed.

Lemma sent_split_no_term (s : str) :
  Forall (fun c => is_term c = false) s -> sent_split Plain s = [s].
Proof.
  induction s as [|c s IH]; [done|]. intros H. inversion H as [|? ? Hc Hs]; subst.
  simpl. unfold next_state. rewrite Hc, (IH Hs). reflexivity.
Qed.

Lemma strip_idem (s : str) : py_strip (py_strip s) = py_strip s.
Proof.
  destruct (truthy (py_strip s)) eqn:Ht.
  - apply strip_of_tight, strip_tight, Ht.
  - destruct (py_strip s); [reflexivity|discriminate].
Qed.

Lemma in_range_hi (lo hi : Z) (c : ascii) :
  in_range lo hi (digit c) = true -> (dval c <= hi)%Z.
Proof.
  unfold in_range, dval. destruct (digit c); [|discriminate].
  intros H. apply andb_prop in H as [_ H]. apply Z.leb_le in H. lia.
Qed.

Lemma digit_bound (c : ascii) (v : Z) : digit c = Some v -> (0 <= v <= 9)%Z.
Proof.
  unfold digit. destruct (Nat.leb_spec 48 (nat_of_ascii c)), (Nat.leb_spec (nat_of_ascii c) 57);
    simpl; intros E; try discriminate. injection E as <-. lia.
Qed.

Lemma parse_year_bound (s r : str) (y : Z) : parse_year s = Some (y, r) -> (0 <= y <= 9999)%Z.
Proof.
  unfold parse_year. intros H. repeat (case_match; simplify_eq/=).
  repeat match goal with
         | H : digit _ = Some _ |- _ => apply digit_bound in H
         end. lia.
Qed.

Lemma parse_month_bound (s r : str) (v : Z) : parse_month s = Some (v, r) -> (v <= 12)%Z.
Proof.
  unfold parse_month. intros H.
  repeat (case_match; simplify_eq/=);
  repeat match goal with
         | H : _ && _ = true |- _ => apply andb_prop in H as [? ?]
         end;
  repeat match goal with
         | H : in_range _ _ _ = true |- _ => apply in_range_hi in H
         end; lia.
Qed.

Lemma strptime_ymd_valid (s : str) (d : date) :
  strptime_ymd s = Some d -> valid_date d = true.
Proof.
  unfold strptime_ymd. intros H.
  repeat (case_match; simplify_eq/=); try discriminate.
  match goal with
  | H : (1 <=? ?y)%Z && _ = true |- _ => apply andb_prop in H as [Hy Hd]; apply Z.leb_le in Hy;
      apply Z.leb_le in Hd
  end.
  apply valid_date_iff.
  repeat match goal with
         | H : parse_year _ = Some _ |- _ => apply parse_year_bound in H
         | H : parse_month _ = Some _ |- _ =>
             pose proof (parse_month_pos _ _ _ H); apply parse_month_bound in H
         | H : parse_day _ = Some _ |- _ => apply parse_day_pos in H
         end.
  unfold MAXYEAR. lia.
Qed.

Lemma dedup_go_distinct (d : list (dkey * item)) (l : list item) :
  NoDup (map fst d ++ map dedup_key l) ->
  dedup_go d l = d ++ map (fun it => (dedup_key it, it)) l.
Proof.
  revert d. induction l as [|it l IH]; intros d Hnd; simpl; [by rewrite app_nil_r|].
  destruct (decide (dedup_key it ∈ map fst d)) as [Hin|Hnin].
  - exfalso. apply NoDup_app in Hnd as (_ & Hdis & _).
    apply (Hdis _ Hin). by left.
  - rewrite IH; [by rewrite <- app_assoc|].
    rewrite map_app, <- app_assoc. exact Hnd.
Qed.

Lemma join_infix_sep (sep : str) (l : list str) (x : str) :
  In x l -> exists pre post, join sep l = pre ++ x ++ post.
Proof.
  induction l as [|w l IH]; [done|]. intros [->|Hin].
  - destruct l as [|w' l].
    + exists [], []. simpl. by rewrite app_nil_r.
    + exists [], (sep ++ join sep (w' :: l)). reflexivity.
  - destruct l as [|w' l]; [done|].
    destruct (IH Hin) as (pre & post & E).
    exists (w ++ sep ++ pre), post.
    change (join sep (w :: w' :: l)) with (w ++ sep ++ join sep (w' :: l)).
    rewrite E. by rewrite <- !app_assoc.
Qed.

Lemma join_frags_infix (sep : list frag) (rows : list (list frag)) (r : list frag) :
  In r rows -> exists pre post, join_frags sep rows = pre ++ r ++ post.
Proof.
  induction rows as [|w l IH]; [done|]. intros [->|Hin].
  - destruct l as [|w' l].
    + exists [], []. simpl. by rewrite app_nil_r.
    + exists [], (sep ++ join_frags sep (w' :: l)). reflexivity.
  - destruct l as [|w' l]; [done|].
    destruct (IH Hin) as (pre & post & E).
    exists (w ++ sep ++ pre), post.
    change (join_frags sep (w :: w' :: l)) with (w ++ sep ++ join_frags sep (w' :: l)).
    rewrite E. by rewrite <- !app_assoc.
Qed.

Lemma render_app (a b : list frag) : render (a ++ b) = render a ++ render b.
Proof. unfold render. by rewrite map_app, concat_app. Qed.

Lemma render_segment (fs big : list frag) : segment fs big -> segment (render fs) (render big).
Proof.
  intros (pre & post & ->). exists (render pre), (render post).
  by rewrite !render_app.
Qed.

Lemma segment_app_l {A} (x a b : list A) : segment x b -> segment x (a ++ b).
Proof. intros (pre & post & ->). exists (a ++ pre), post. by rewrite <- app_assoc. Qed.

Lemma segment_app_r {A} (x a b : list A) : segment x a -> segment x (a ++ b).
Proof. intros (pre & post & ->). exists pre, (post ++ b). by rewrite <- !app_assoc. Qed.

(** [build_snippet] returns either no label and no text, or the label
    "Conclusion" or "From abstract" with a text that is non-empty and has
    no leading or trailing whitespace. *)
Theorem build_snippet_shape (e : option meta) :
  build_snippet e = (None, None)
  \/ exists label s, build_snippet e = (Some label, Some s)
       /\ (label = L "Conclusion" \/ label = L "From abstract")
       /\ tight s.
Proof.
  destruct e as [m|]; [|by left].
  destruct (build_snippet_cases m) as [(Hc & E)|[(Hc & Ha & E)|(_ & _ & E)]];
    rewrite E; [right..|by left].
  - eexists _, _. split; [reflexivity|]. split; [by left|].
    apply trim_words_tight, strip_tight, Hc.
  - eexists _, _. split; [reflexivity|]. split; [by right|].
    apply trim_words_tight.
    destruct (truthy (last_sentences _ 2)) eqn:Hl;
      [apply last_sentences_tight, Hl|apply strip_tight, Ha].
Qed.

(** [html.escape] output contains no [<], [>], double quote or single
    quote, and a string with none of these and no [&] is returned
    unchanged. *)
Theorem html_escape_spec (s : str) :
  Forall (fun c => (is_char 60 c || is_char 62 c || is_char 34 c || is_char 39 c) = false)
         (html_escape s)
  /\ (Forall (fun c => (is_char 38 c || is_char 60 c || is_char 62 c || is_char 34 c
                        || is_char 39 c) = false) s
      -> html_escape s = s).
Proof.
  split.
  - unfold html_escape. induction s as [|c s IH]; simpl; [constructor|].
    apply Forall_app. split; [|exact IH].
    unfold escape_char, is_char.
    destruct (Nat.eqb_spec (nat_of_ascii c) 38); [repeat constructor|].
    destruct (Nat.eqb_spec (nat_of_ascii c) 60); [repeat constructor|].
    destruct (Nat.eqb_spec (nat_of_ascii c) 62); [repeat constructor|].
    destruct (Nat.eqb_spec (nat_of_ascii c) 34); [repeat constructor|].
    destruct (Nat.eqb_spec (nat_of_ascii c) 39); [repeat constructor|].
    constructor; [|constructor].
    repeat match goal with |- context [Nat.eqb ?a ?b] => destruct (Nat.eqb_spec a b) end;
      try congruence; reflexivity.
  - unfold html_escape. induction s as [|c s IH]; simpl; [done|].
    intros H. inversion H as [|? ? Hc Hs]; subst. rewrite (IH Hs).
    unfold escape_char. unfold is_char in Hc.
    repeat match type of Hc with
           | (?a || ?b) = false => apply orb_false_iff in Hc as [Hc ?]
           end.
    repeat match goal with H : Nat.eqb _ _ = false |- _ => rewrite H; clear H end.
    reflexivity.
Qed.

(** A text without ['.'], ['!'] or ['?'] is one sentence:
    [last_sentences] returns it stripped, whatever the count. *)
Theorem last_sentences_no_terminator (text : str) (n : nat) :
  Forall (fun c => is_term c = false) text -> last_sentences text n = py_strip text.
Proof.
  intros H. unfold last_sentences, re_split_sentences. cbv zeta.
  rewrite sent_split_no_term by (apply Forall_py_strip, H).
  simpl. destruct (truthy (py_strip text)) eqn:Ht.
  - assert (E : last_n n [py_strip text] = [py_strip text])
      by (destruct n; reflexivity).
    rewrite E. simpl. apply strip_idem.
  - destruct (py_strip text); [reflexivity|discriminate].
Qed.

(** [parse_sortdate] always returns a valid calendar date: the date
    [strptime] parses when it succeeds, [datetime.min] when it fails. *)
Theorem parse_sortdate_valid (s : str) :
  valid_date (parse_sortdate s) = true
  /\ (forall d, strptime_ymd s = Some d -> parse_sortdate s = d)
  /\ (strptime_ymd s = None -> parse_sortdate s = DATETIME_MIN).
Proof.
  unfold parse_sortdate. destruct (strptime_ymd s) as [d|] eqn:E.
  - split; [apply (strptime_ymd_valid s), E|]. split; [|discriminate]. by intros ? [= ->].
  - split; [reflexivity|]. split; [discriminate|done].
Qed.

(** Deduplication leaves a list whose dedup keys are already pairwise
    distinct unchanged. *)
Theorem dedup_distinct (items : list item) :
  NoDup (map dedup_key items) -> dedup items = items.
Proof.
  intros H. unfold dedup. rewrite dedup_go_distinct by exact H.
  simpl. rewrite map_map. simpl. apply map_id.
Qed.

(** The items built in [esummary], before deduplication. *)
Lemma summary_items_spec (result : list (str * docsum)) :
  map it_pmid (summary_items result)
    = List.filter (fun pid => negb (bool_decide (pid = L "uids"))) (map fst result)
  /\ Forall (fun it => it_url it = L "https://pubmed.ncbi.nlm.nih.gov/" ++ it_pmid it ++ L "/"
                       /\ (it_title it = [] \/ tight (it_title it)))
            (summary_items result).
Proof.
  unfold summary_items. induction result as [|[pid v] r [IH1 IH2]]; [split; constructor|].
  cbn [List.filter map fst]. destruct (bool_decide (pid = L "uids")); cbn [negb map];
    [exact (conj IH1 IH2)|].
  split; [by rewrite IH1|]. constructor; [|exact IH2].
  split; [reflexivity|]. cbn [make_item it_title].
  destruct (truthy (py_strip (py_or (ds_title v) []))) eqn:Ht.
  - right. apply strip_tight, Ht.
  - left. destruct (py_strip _); [reflexivity|discriminate].
Qed.

(** Every item of the digest has its row in the HTML body, its line in the
    text body and its section in the abstracts page. *)
Theorem digest_rows (items : list item) (mindate maxdate : str) (mm : option meta_map)
    (m : meta_map) (base_url : str) (it : item) :
  In it items ->
  segment (render (html_row mm base_url it)) (build_html items mindate maxdate mm base_url)
  /\ segment (text_line mm base_url it) (build_text items mindate maxdate mm base_url)
  /\ segment (render (page_row m it)) (build_abstracts_page items m mindate maxdate).
Proof.
  intros Hin. destruct items as [|i0 rest] eqn:Ei; [done|]. rewrite <- Ei in Hin.
  destruct (in_split _ _ Hin) as (p & q & Hpq).
  split; [|split].
  - unfold build_html, build_html_frags. apply render_segment.
    apply segment_app_l, segment_app_r. rewrite <- Ei, Hpq, map_app, concat_app.
    cbn [map concat]. apply segment_app_l. exists [], (concat (map (html_row mm base_url) q)).
    reflexivity.
  - unfold build_text. rewrite <- Ei.
    apply join_infix_sep. apply in_or_app. right. apply in_map, Hin.
  - unfold build_abstracts_page, build_abstracts_page_frags. cbv zeta.
    apply render_segment. apply segment_app_l, segment_app_r.
    destruct (join_frags_infix [Lit (L " ")] (map (page_row m) (i0 :: rest)) (page_row m it))
      as (pre & post & E); [rewrite <- Ei; apply in_map, Hin|].
    cbn [map]. cbn [map] in E. rewrite E. exists pre, post. reflexivity.
Qed.

Lemma drop_char_head (c : ascii) (s : str) :
  match drop_char c s with d :: _ => d <> c | [] => True end.
Proof.
  induction s as [|d s IH]; simpl; [done|].
  destruct (ascii_dec d c); [exact IH|exact n].
Qed.

Lemma drop_char_idem (c : ascii) (s : str) : drop_char c (drop_char c s) = drop_char c s.
Proof.
  pose proof (drop_char_head c s) as H.
  destruct (drop_char c s) as [|d s'] eqn:E; [reflexivity|].
  simpl. destruct (ascii_dec d c); [done|reflexivity].
Qed.

Lemma last_rev {A} (l : list A) : last (rev l) = hd_error l.
Proof. destruct l as [|x l]; [reflexivity|]. simpl. apply last_snoc. Qed.

Lemma py_rstrip_char_id (c : ascii) (v : str) : last v <> Some c -> py_rstrip_char c v = v.
Proof.
  intros H. unfold py_rstrip_char.
  rewrite <- (rev_involutive v) in H. rewrite last_rev in H.
  destruct (rev v) as [|d r] eqn:E.
  - simpl. apply (f_equal (@rev ascii)) in E. by rewrite rev_involutive in E.
  - simpl. destruct (ascii_dec d c) as [->|]; [done|].
    rewrite <- E. apply rev_involutive.
Qed.

(** [ABSTRACTS_BASE_URL] never ends with ['/'], stripping it again changes
    nothing, and a value that does not end with ['/'] is kept as it is. *)
Theorem abstracts_base_url_spec (env : option str) :
  last (abstracts_base_url env) <> Some "/"%char
  /\ abstracts_base_url (Some (abstracts_base_url env)) = abstracts_base_url env
  /\ (forall v, last v <> Some "/"%char -> abstracts_base_url (Some v) = v).
Proof.
  unfold abstracts_base_url, py_rstrip_char. split; [|split].
  - rewrite last_rev. pose proof (drop_char_head "/"%char (rev (match env with Some v => v | None => [] end))) as H.
    destruct (drop_char _ _); simpl; [discriminate|]. congruence.
  - rewrite rev_involutive, drop_char_idem. reflexivity.
  - intros v Hv. apply py_rstrip_char_id, Hv.
Qed.

Lemma last_7d_window_ist_overflow_witness :
  let d := (1, 1, 5)%Z in
  valid_date d = true
  /\ (toordinal d <= 7 -> last_7d_window_ist d = None)%Z
  /\ (7 < toordinal d ->
      exists start, valid_date start = true /\ toordinal start = toordinal d - 7
        /\ last_7d_window_ist d = Some (strftime_ymd start, strftime_ymd d))%Z.
Proof.
  intros d. assert (H : valid_date d = true) by reflexivity.
  split; [exact H|]. exact (last_7d_window_ist_overflow d H).
Defined.

Lemma eutils_params_spec_witness :
  let extra := Some [(L "db", PStr (L "pubmed")); (L "tool", PStr (L "mine"))] in
  let k := L "tool" in
  NoDup (map fst (default [] extra))
  /\ dict_get k (eutils_params (L "pain-weekly-bot") [] [] extra)
     = match dict_get k (default [] extra) with
       | Some v => Some v
       | None =>
           if decide (k = L "tool") then Some (PStr (L "pain-weekly-bot"))
           else if decide (k = L "email") then Some (PStr [])
           else if decide (k = L "api_key") then
             (if truthy [] then Some (PStr []) else None)
           else None
       end
  /\ NoDup (map fst (eutils_params (L "pain-weekly-bot") [] [] extra))
  /\ take 2 (map fst (eutils_params (L "pain-weekly-bot") [] [] extra)) = [L "tool"; L "email"].
Proof.
  intros extra k.
  assert (H : NoDup (map fst (default [] extra))) by (apply (bool_decide_unpack _); vm_compute; reflexivity).
  split; [exact H|]. exact (eutils_params_spec _ _ _ extra k H).
Defined.

Lemma html_escape_spec_witness :
  Forall (fun c => (is_char 38 c || is_char 60 c || is_char 62 c || is_char 34 c
                    || is_char 39 c) = false) (L "a b")
  /\ html_escape (L "a b") = L "a b".
Proof.
  assert (H : Forall (fun c => (is_char 38 c || is_char 60 c || is_char 62 c || is_char 34 c
                                || is_char 39 c) = false) (L "a b"))
    by (repeat constructor).
  split; [exact H|]. exact (proj2 (html_escape_spec (L "a b")) H).
Defined.

Lemma last_sentences_no_terminator_witness :
  Forall (fun c => is_term c = false) (L " one clause, no end ")
  /\ last_sentences (L " one clause, no end ") 2 = py_strip (L " one clause, no end ").
Proof.
  assert (H : Forall (fun c => is_term c = false) (L " one clause, no end "))
    by (repeat constructor).
  split; [exact H|]. exact (last_sentences_no_terminator _ 2 H).
Defined.

Lemma dedup_distinct_witness :
  let items := [mkItem (L "1") (L "A") (L "J") (L "2024/03/10") (L "10.1/a") (L "u1");
                mkItem (L "2") (L "B") (L "J") (L "2024/03/11") [] (L "u2")] in
  NoDup (map dedup_key items) /\ dedup items = items.
Proof.
  intros items.
  assert (H : NoDup (map dedup_key items)) by (apply (bool_decide_unpack _); vm_compute; reflexivity).
  split; [exact H|]. exact (dedup_distinct items H).
Defined.

Lemma digest_rows_witness :
  let it := mkItem (L "1") (L "T") (L "J") (L "2024/03/10") (L "10.1/x") (L "u") in
  In it [it]
  /\ segment (render (html_row None [] it)) (build_html [it] (L "a") (L "b") None [])
  /\ segment (text_line None [] it) (build_text [it] (L "a") (L "b") None [])
  /\ segment (render (page_row ∅ it)) (build_abstracts_page [it] ∅ (L "a") (L "b")).
Proof.
  intros it. assert (H : In it [it]) by (left; reflexivity).
  split; [exact H|]. exact (digest_rows [it] (L "a") (L "b") None ∅ [] it H).
Defined.

Lemma NoDup_map_sublist {A B} (f : A -> B) (l k : list A) :
  l `sublist_of` k -> NoDup (map f k) -> NoDup (map f l).
Proof.
  induction 1 as [|x l1 l2 Hs IH|x l1 l2 Hs IH]; simpl; intros H.
  - constructor.
  - apply NoDup_cons in H as [Hx H]. apply NoDup_cons. split; [|auto].
    intros Hin. apply Hx. apply list_elem_of_In, in_map_iff in Hin as (y & <- & Hy).
    apply list_elem_of_In, in_map, list_elem_of_In.
    apply (sublist_subseteq l1 l2 Hs). apply list_elem_of_In, Hy.
  - apply NoDup_cons in H as [_ H]. auto.
Qed.

Lemma Forall_sublist_of {A} (P : A -> Prop) (l k : list A) :
  l `sublist_of` k -> Forall P k -> Forall P l.
Proof.
  intros Hs HF. rewrite Forall_forall in HF |- *. intros x Hx.
  apply HF, (sublist_subseteq l k Hs), Hx.
Qed.

Lemma NoDup_List_filter {A} (f : A -> bool) (l : list A) : NoDup l -> NoDup (List.filter f l).
Proof.
  induction l as [|x l IH]; simpl; intros H; [constructor|].
  apply NoDup_cons in H as [Hx H]. destruct (f x); [|auto].
  apply NoDup_cons. split; [|auto]. intros Hin. apply Hx.
  apply list_elem_of_In in Hin. apply filter_In in Hin as [Hin _]. apply list_elem_of_In, Hin.
Qed.

Lemma dedup_sublist (items : list item) : dedup items `sublist_of` items.
Proof.
  destruct (dedup_go_spec [] items) as (l & E & Hsub & _). unfold dedup. rewrite E. exact Hsub.
Qed.

(** [esummary] on a [result] object with distinct keys: every returned
    item has the PMID of a [result] key other than ["uids"] and the PubMed
    URL of that PMID, and no two returned items share a PMID. *)
Theorem esummary_result_items (result : list (str * docsum)) :
  NoDup (map fst result) ->
  Forall (fun it => it_pmid it <> L "uids" /\ it_pmid it ∈ map fst result
                    /\ it_url it = L "https://pubmed.ncbi.nlm.nih.gov/" ++ it_pmid it ++ L "/")
         (esummary_result result)
  /\ NoDup (map it_pmid (esummary_result result)).
Proof.
  intros Hnd. destruct (summary_items_spec result) as [Hp Hu].
  assert (HF : Forall (fun it => it_pmid it <> L "uids" /\ it_pmid it ∈ map fst result
                    /\ it_url it = L "https://pubmed.ncbi.nlm.nih.gov/" ++ it_pmid it ++ L "/")
                      (summary_items result)).
  { rewrite Forall_forall in Hu |- *. intros it Hit.
    destruct (Hu it Hit) as [Hurl _].
    assert (Hm : In (it_pmid it) (map it_pmid (summary_items result)))
      by (apply in_map, list_elem_of_In, Hit).
    rewrite Hp in Hm. apply filter_In in Hm as [Hm Hn].
    split; [|split; [apply list_elem_of_In, Hm|exact Hurl]].
    intros E. rewrite E, bool_decide_true in Hn; done. }
  assert (HN : NoDup (map it_pmid (summary_items result)))
    by (rewrite Hp; apply NoDup_List_filter, Hnd).
  unfold esummary_result, sort_by_date.
  pose proof (sort_desc_perm (fun it => parse_sortdate (it_date it)) (dedup (summary_items result)))
    as Hperm.
  split.
  - apply Forall_forall. intros x Hx.
    apply list_elem_of_In in Hx. apply (Permutation_in _ Hperm) in Hx.
    apply list_elem_of_In in Hx.
    rewrite Forall_forall in HF. apply HF.
    apply (sublist_subseteq _ _ (dedup_sublist _)), Hx.
  - assert (Hp2 : map it_pmid (sort_desc (fun it => parse_sortdate (it_date it))
                                           (dedup (summary_items result)))
                   ≡ₚ map it_pmid (dedup (summary_items result)))
      by (apply Permutation_map, Hperm).
    rewrite Hp2.
    apply (NoDup_map_sublist _ _ _ (dedup_sublist _)), HN.
Qed.

Lemma esummary_result_items_witness :
  let v := mkDocsum (Some (L "T")) None None None None [] in
  let result := [(L "uids", v); (L "1", v); (L "2", v)] in
  NoDup (map fst result)
  /\ Forall (fun it => it_pmid it <> L "uids" /\ it_pmid it ∈ map fst result
                    /\ it_url it = L "https://pubmed.ncbi.nlm.nih.gov/" ++ it_pmid it ++ L "/")
         (esummary_result result)
  /\ NoDup (map it_pmid (esummary_result result)).
Proof.
  intros v result.
  assert (H : NoDup (map fst result)) by (apply (bool_decide_unpack _); vm_compute; reflexivity).
  split; [exact H|]. exact (esummary_result_items result H).
Defined.
